(** * kyaml/kio/pkgio_reader.go: package tree reader and read/write coordinator

    A shallow embedding of [LocalPackageReader] (the directory walk that
    decides which files of a package are read and how their documents are
    annotated) and of [LocalPackageReadWriter] (which remembers the files
    seen by [Read] and deletes the ones missing at [Write]), followed by
    the properties the design document states about them.

    Conventions.
    - A Go [error] value is [option error]: [None] is [nil].
    - A function returning [(T, error)] returns [result T], or a pair when
      the code returns both components.
    - Code that mutates (the ignore matcher, the closure variables of the
      walk, the shared [SetAnnotations] map) is written in state-passing
      style over [wstate]; every call to a collaborator is logged in a
      trace of [event]s so that "is never opened", "is not consulted" can
      be stated.
    - Collaborators that live outside this file of the repository are
      interfaces (type classes): the ignore matcher, [kioutil], the parts
      of [path/filepath] that depend on the platform. *)

From stdpp Require Import base option list gmap strings pretty.
From Stdlib Require Import Ascii.

#[local] Set Warnings "-clear-no-such-hyp".

Open Scope string_scope.
Open Scope list_scope.

(** ** Errors *)

(** Go's [error] values that occur in this file.  [filepath.SkipDir] is a
    sentinel compared by identity; [errors.Wrap] builds a new value, so a
    wrapped [SkipDir] is not [SkipDir]. *)
Inductive error : Type :=
| SkipDir
| ErrNotExist
| ErrOS (msg : string)
| ErrBadPattern
| ErrMsg (msg : string)
| Wrapped (e : error)
| WrapPrefix (e : error) (prefix : string).

#[global] Instance error_eq_dec : EqDecision error.
Proof. solve_decision. Defined.

Inductive result (A : Type) : Type :=
| Ok (a : A)
| Fail (e : error).
Arguments Ok {A} a.
Arguments Fail {A} e.

(** Modelled from the spec: [errors.Wrap] (kyaml/errors, not part of this
    file) wraps an error for diagnostics; [nil] stays [nil]. *)
Definition Wrap (err : option error) : option error :=
  match err with
  | None => None
  | Some e => Some (Wrapped e)
  end.

(** [os.IsNotExist]. *)
Definition IsNotExist (err : option error) : bool :=
  match err with
  | Some ErrNotExist => true
  | _ => false
  end.

(** ** Paths

    After [filepath.Abs] the package path is absolute and clean.  Such a
    path is modelled by the list of its components: ["/a/b"] is
    [["a"; "b"]] and ["/"] is [[]].  A relative path, as [filepath.Rel]
    returns it, is a list of components as well ([".."] may occur); the
    string that ends up in the path annotation is [show_rel] of it. *)
Definition path := list string.
Definition relpath := list string.

(** [filepath.Join(dir, name)] for a single directory entry [name]. *)
Definition Join (dir : path) (name : string) : path := dir ++ [name].

(** [filepath.Dir]. *)
Definition Dir_ (p : path) : path := removelast p.

(** [filepath.Base]; the base of ["/"] is ["/"]. *)
Definition Base (p : path) : string := List.last p "/".

(** [filepath.Rel(base, targ)] on clean absolute paths: drop the common
    prefix, climb out of what is left of [base], go down what is left of
    [targ].  On such paths Go's [Rel] never fails. *)
Fixpoint Rel (base targ : path) : relpath :=
  match base, targ with
  | b :: bs, t :: ts =>
      if decide (b = t) then Rel bs ts
      else ((λ _, "..") <$> base) ++ targ
  | _, _ => ((λ _, "..") <$> base) ++ targ
  end.

(** [filepath.Join(base, rel)] for a relative path: the cleaned
    concatenation. *)
Definition JoinRel (base : path) (rel : relpath) : path :=
  fold_left (λ acc c,
    if decide (c = "..") then removelast acc
    else if decide (c = ".") then acc
    else acc ++ [c]) rel base.

(** The string form of an absolute path. *)
Definition show_abs (p : path) : string :=
  match p with
  | [] => "/"
  | _ => fold_left (λ acc d, acc +:+ "/" +:+ d) p ""
  end.

(** The string form of a relative path, slash separated; the empty
    relative path is ["."]. *)
Definition show_rel (rel : relpath) : string :=
  match rel with
  | [] => "."
  | c :: cs => fold_left (λ acc d, acc +:+ "/" +:+ d) cs c
  end.

(** ** Documents *)

(** [*yaml.RNode]: a document with its annotations. *)
Record RNode : Type := mkRNode {
  annotations : gmap string string;
  body : string;
}.

#[global] Instance RNode_eq_dec : EqDecision RNode.
Proof. solve_decision. Defined.

(** [kioutil]: the names of the two annotations and the accessor that
    [getFiles] uses.  The package is not part of this file. *)
Class Kioutil : Type := {
  PathAnnotation : string;
  IndexAnnotation : string;
  (** returns [(path, index)] *)
  GetFileAnnotations : RNode → result (string * string);
}.

(** The platform-dependent part of [path/filepath]. *)
Class Filepath : Type := {
  ToSlash : string → string;
  Abs : string → result path;
  (** [filepath.Match(pattern, name)] *)
  Match : string → string → result bool;
  (** [filepath.Join] on two strings *)
  JoinStr : string → string → string;
}.

(** [IgnoreFilesMatcher]: the methods are called through a pointer, so
    each of them may change the matcher. *)
Class IgnoreFilesMatcher (M : Type) : Type := {
  (** [&IgnoreFilesMatcher{}] *)
  newMatcher : M;
  readIgnoreFile : M → path → option error * M;
  matchFile : M → path → bool * M;
  matchDir : M → path → bool * M;
}.

(** The order in which [range] walks over a Go map is not specified: it
    is some enumeration of the keys.  What is proved below holds for
    every such enumeration. *)
Class MapRange : Type := {
  rangeOrder : gset string → list string;
  rangeOrder_perm : ∀ s, rangeOrder s ≡ₚ elements s;
}.

(** ** The file system *)

(** What [Lstat] finds at a path: a file (with what opening and decoding
    it yields, before any annotation is set), a directory (with the error
    of reading its entries, if any, and its entries in the lexical order
    in which [filepath.Walk] visits them), or an entry whose [Lstat]
    fails. *)
#[warnings="-register-all"]
Inductive fsnode : Type :=
| File (decoded : result (list RNode))
| Dir (readdir : option error) (entries : list (string * fsnode))
| Bad (e : error).

(** A file system is the list of entries of ["/"]. *)
Definition filesystem := list (string * fsnode).

Definition IsDir (n : fsnode) : bool :=
  match n with
  | Dir _ _ => true
  | _ => false
  end.

Fixpoint find_entry (name : string) (es : list (string * fsnode)) : option fsnode :=
  match es with
  | [] => None
  | (n, x) :: es' => if decide (n = name) then Some x else find_entry name es'
  end.

(** Resolution of a path inside a list of entries. *)
Fixpoint resolve (es : list (string * fsnode)) (p : path) : result fsnode :=
  match p with
  | [] => Ok (Dir None es)
  | c :: p' =>
      match find_entry c es with
      | None => Fail ErrNotExist
      | Some (Bad e) => Fail e
      | Some (File d) =>
          match p' with
          | [] => Ok (File d)
          | _ => Fail (ErrOS "not a directory")
          end
      | Some (Dir rd es') =>
          match p' with
          | [] => Ok (Dir rd es')
          | _ => resolve es' p'
          end
      end
  end.

(** [os.Lstat] and [os.Stat] (the model has no symbolic links). *)
Definition Lstat (fs : filesystem) (p : path) : result fsnode := resolve fs p.

Definition Stat (fs : filesystem) (p : path) : option error :=
  match resolve fs p with
  | Ok _ => None
  | Fail e => Some e
  end.

(** [os.Open] followed by decoding the documents of the file. *)
Definition openAndDecode (fs : filesystem) (p : path) : result (list RNode) :=
  match resolve fs p with
  | Ok (File d) => d
  | Ok (Dir _ _) => Fail (ErrOS "is a directory")
  | Ok (Bad e) => Fail e
  | Fail e => Fail e
  end.

(** ** Go maps

    A Go map is a reference: a copy of a struct that holds one shares it
    with the original.  [SetAnnotations] is therefore a location (or
    [nil]) in a store of maps. *)
Definition loc := positive.
Abbreviation annots := (gmap string string).
Abbreviation heap := (gmap loc (gmap string string)).

(** The map behind a [SetAnnotations] field; a [nil] map reads as empty. *)
Definition deref (h : heap) (m : option loc) : annots :=
  match m with
  | None => ∅
  | Some l => h !!! l
  end.

(** ** Calls to collaborators, in the order they are made *)
Inductive event : Type :=
| EvReadIgnore (p : path)
| EvMatchFile (p : path)
| EvMatchDir (p : path)
| EvStat (p : path)
| EvOpen (p : path).

#[global] Instance event_eq_dec : EqDecision event.
Proof. solve_decision. Defined.

(** The files opened, in order. *)
Definition opened (tr : list event) : list path :=
  omap (λ ev, match ev with EvOpen p => Some p | _ => None end) tr.

(** ** The byte reader *)

Section ByteReader.
Context {K : Kioutil}.

(** Modelled from the spec: what [ByteReader.Read] (kio/byteio_reader.go,
    not part of this file) does to the documents it decodes.  Every
    document receives the extra annotations it was configured with, and,
    unless annotations are suppressed, its zero-based position in the
    file as index annotation. *)
Definition stamp (omit : bool) (extra : annots) (i : nat) (n : RNode) : RNode :=
  let a := extra ∪ annotations n in
  {| annotations := if omit then a else <[IndexAnnotation := pretty i]> a;
     body := body n |}.

(** Modelled from the spec: [ByteReader.Read] on what decoding the file
    yields; a decode failure is returned as it is. *)
Definition ByteReader_Read (omit : bool) (extra : annots)
    (decoded : result (list RNode)) : result (list RNode) :=
  match decoded with
  | Ok docs => Ok (imap (stamp omit extra) docs)
  | Fail e => Fail e
  end.

End ByteReader.

(** ** LocalPackageReader *)

Definition DefaultMatch : list string := ["*.yaml"; "*.yml"].
Definition JSONMatch : list string := ["*.json"].
Definition MatchAll : list string := DefaultMatch ++ JSONMatch.

Module LocalPackageReader.

Record t : Type := mk {
  Kind : string;
  PackagePath : string;
  PackageFileName : string;
  MatchFilesGlob : list string;
  IncludeSubpackages : bool;
  ErrorIfNonResources : bool;
  OmitReaderAnnotations : bool;
  SetAnnotations : option loc;
}.

Definition with_MatchFilesGlob (g : list string) (r : t) : t :=
  mk (Kind r) (PackagePath r) (PackageFileName r) g (IncludeSubpackages r)
     (ErrorIfNonResources r) (OmitReaderAnnotations r) (SetAnnotations r).

Section Reader.
Context {K : Kioutil} {F : Filepath} {M : Type} {IM : IgnoreFilesMatcher M}.

(** The variables of [Read] that the walk function closes over and
    updates, together with the store of maps and the trace.
    [rSetAnnotations] is the [SetAnnotations] field of [Read]'s own copy
    of the receiver. *)
Record wstate : Type := mkState {
  ignoreFilesMatcher : M;
  maps : heap;
  rSetAnnotations : option loc;
  pathRelativeTo : path;
  operand : list RNode;
  trace : list event;
}.

Definition Walker (A : Type) : Type := wstate → A * wstate.

Definition emit (ev : event) (st : wstate) : wstate :=
  mkState (ignoreFilesMatcher st) (maps st) (rSetAnnotations st)
          (pathRelativeTo st) (operand st) (trace st ++ [ev]).

Definition set_matcher (m : M) (st : wstate) : wstate :=
  mkState m (maps st) (rSetAnnotations st)
          (pathRelativeTo st) (operand st) (trace st).

Definition set_pathRelativeTo (p : path) (st : wstate) : wstate :=
  mkState (ignoreFilesMatcher st) (maps st) (rSetAnnotations st)
          p (operand st) (trace st).

Definition set_annots (h : heap) (l : option loc) (st : wstate) : wstate :=
  mkState (ignoreFilesMatcher st) h l
          (pathRelativeTo st) (operand st) (trace st).

Definition append_operand (nodes : list RNode) (st : wstate) : wstate :=
  mkState (ignoreFilesMatcher st) (maps st) (rSetAnnotations st)
          (pathRelativeTo st) (operand st ++ nodes) (trace st).

(** The three methods of the matcher, as calls that update the state and
    leave an event. *)
Definition call_readIgnoreFile (p : path) : Walker (option error) := λ st,
  let '(err, m) := readIgnoreFile (ignoreFilesMatcher st) p in
  (err, emit (EvReadIgnore p) (set_matcher m st)).

Definition call_matchFile (p : path) : Walker bool := λ st,
  let '(b, m) := matchFile (ignoreFilesMatcher st) p in
  (b, emit (EvMatchFile p) (set_matcher m st)).

Definition call_matchDir (p : path) : Walker bool := λ st,
  let '(b, m) := matchDir (ignoreFilesMatcher st) p in
  (b, emit (EvMatchDir p) (set_matcher m st)).

(** The state after a query of the matcher that left it as [m]. *)
Definition asked (ev : event) (m : M) (st : wstate) : wstate := emit ev (set_matcher m st).

(** [readFile]: opens the file and runs a [ByteReader] configured with
    the receiver's [OmitReaderAnnotations] and the current content of its
    [SetAnnotations]. *)
Definition readFile (r : t) (fs : filesystem) (p : path) : Walker (result (list RNode)) := λ st,
  (ByteReader_Read (OmitReaderAnnotations r)
                   (deref (maps st) (rSetAnnotations st))
                   (openAndDecode fs p),
   emit (EvOpen p) st).

(** The loop of [ShouldSkipFile] over the glob patterns. *)
Fixpoint matchGlobs (globs : list string) (base : string) : bool * option error :=
  match globs with
  | [] => (false, None)
  | g :: globs' =>
      match Match g base with
      | Fail e => (false, Wrap (Some e))
      | Ok true => (true, None)
      | Ok false => matchGlobs globs' base
      end
  end.

(** [ShouldSkipFile]: despite its name the result is [true] when the file
    is to be read. *)
Definition ShouldSkipFile (r : t) (p : path) : Walker (bool * option error) := λ st,
  let '(ignored, st) := call_matchFile p st in
  if ignored then ((false, None), st)
  else (matchGlobs (MatchFilesGlob r) (Base p), st).

(** [initReaderAnnotations]: a [nil] map is replaced by a new one in the
    receiver; a map that exists is updated in place. *)
Definition initReaderAnnotations (r : t) (rel : string) (st : wstate) : wstate :=
  let '(h, l) :=
    match rSetAnnotations st with
    | None => let l := fresh (dom (maps st)) in (<[l := ∅]> (maps st), l)
    | Some l => (maps st, l)
    end in
  if OmitReaderAnnotations r then set_annots h (Some l) st
  else set_annots (<[l := <[PathAnnotation := rel]> (h !!! l)]> h) (Some l) st.

(** [ShouldSkipDir]. *)
Definition ShouldSkipDir (r : t) (fs : filesystem) (p : path) : Walker (option error) := λ st,
  if decide (PackageFileName r = "") then
    let '(ignored, st) := call_matchDir p st in
    (if ignored then Some SkipDir else None, st)
  else
    let marker := Join p (PackageFileName r) in
    let err := Stat fs marker in
    let st := emit (EvStat marker) st in
    if IsNotExist err then
      let '(ignored, st) := call_matchDir p st in
      (if ignored then Some SkipDir else None, st)
    else
      match err with
      | Some e => (Wrap (Some e), st)
      | None =>
          if negb (IncludeSubpackages r) then (Some SkipDir, st)
          else call_readIgnoreFile p st
      end.

(** The end of the walk function, for a file that passed the filters:
    relative path, annotations, reading, appending to [operand]. *)
Definition annotateAndRead (r : t) (fs : filesystem) (p : path) : Walker (option error) := λ st,
  let rel := Rel (pathRelativeTo st) p in
  let st := initReaderAnnotations r (show_rel rel) st in
  let target := JoinRel (pathRelativeTo st) rel in
  let '(res, st) := readFile r fs target st in
  match res with
  | Fail e => (Some (WrapPrefix e (show_abs target)), st)
  | Ok nodes => (None, append_operand nodes st)
  end.

(** The second half of the walk function, from the comment "check if we
    should skip the directory or file" on. *)
Definition skipOrRead (r : t) (fs : filesystem) (p : path) (isdir : bool) : Walker (option error) := λ st,
  if isdir then ShouldSkipDir r fs p st
  else
    let '((matched, err), st) := ShouldSkipFile r p st in
    match err with
    | Some e => (Some e, st)
    | None =>
        if negb matched then (None, st)
        else annotateAndRead r fs p st
    end.

(** The function that [Read] hands to [filepath.Walk].  [root] is
    [r.PackagePath] after [filepath.Abs]; [info] is [nil] exactly when
    [Lstat] failed, and then [err] is set. *)
Definition walkFn (r : t) (root : path) (fs : filesystem)
    (p : path) (info : option fsnode) (err : option error) : Walker (option error) := λ st,
  match err with
  | Some e => (Wrap (Some e), st)
  | None =>
      let isdir := from_option IsDir false info in
      if bool_decide (p = root) then
        if isdir then call_readIgnoreFile p (set_pathRelativeTo root st)
        else skipOrRead r fs p isdir (set_pathRelativeTo (Dir_ root) st)
      else skipOrRead r fs p isdir st
  end.

(** [filepath.Walk]'s recursion: the function is called on the node; a
    directory whose call returned [nil] has its entries walked in order.
    [SkipDir] returned for a directory skips that directory; returned for
    a file it ends the walk of the directory the file is in. *)
Fixpoint walk (fn : path → option fsnode → option error → Walker (option error))
    (p : path) (info : fsnode) (st : wstate) {struct info} : option error * wstate :=
  match info with
  | Dir rd entries =>
      let '(err1, st1) := fn p (Some info) rd st in
      match rd, err1 with
      | None, None =>
          (fix children (es : list (string * fsnode)) (st : wstate) {struct es} :=
             match es with
             | [] => (None, st)
             | (name, child) :: es' =>
                 let filename := Join p name in
                 match child with
                 | Bad e =>
                     let '(err, st') := fn filename None (Some e) st in
                     match err with
                     | Some e' =>
                         if bool_decide (e' = SkipDir) then children es' st'
                         else (Some e', st')
                     | None => children es' st'
                     end
                 | _ =>
                     let '(err, st') := walk fn filename child st in
                     match err with
                     | Some e' =>
                         if negb (IsDir child) || negb (bool_decide (e' = SkipDir))
                         then (Some e', st')
                         else children es' st'
                     | None => children es' st'
                     end
                 end
             end) entries st1
      | _, _ => (err1, st1)
      end
  | File _ => fn p (Some info) None st
  | Bad e => fn p None (Some e) st
  end.

(** The loop of [walk] over the entries of a directory, on its own. *)
Fixpoint walkChildren (fn : path → option fsnode → option error → Walker (option error))
    (p : path) (es : list (string * fsnode)) (st : wstate) : option error * wstate :=
  match es with
  | [] => (None, st)
  | (name, child) :: es' =>
      let filename := Join p name in
      match child with
      | Bad e =>
          let '(err, st') := fn filename None (Some e) st in
          match err with
          | Some e' =>
              if bool_decide (e' = SkipDir) then walkChildren fn p es' st'
              else (Some e', st')
          | None => walkChildren fn p es' st'
          end
      | _ =>
          let '(err, st') := walk fn filename child st in
          match err with
          | Some e' =>
              if negb (IsDir child) || negb (bool_decide (e' = SkipDir))
              then (Some e', st')
              else walkChildren fn p es' st'
          | None => walkChildren fn p es' st'
          end
      end
  end.

(** [filepath.Walk]. *)
Definition Walk (fn : path → option fsnode → option error → Walker (option error))
    (fs : filesystem) (root : path) : Walker (option error) := λ st,
  let '(err, st') :=
    match Lstat fs root with
    | Fail e => fn root None (Some e) st
    | Ok info => walk fn root info st
    end in
  (if bool_decide (err = Some SkipDir) then None else err, st').

(** Where [readIgnoreFile] is called: at the root directory, and at a
    directory that holds the marker file when sub-packages are
    included. *)
Definition loadsIgnoreFile (r : t) (root : path) (fs : filesystem) (q : path) : Prop :=
  q = root ∨
  (PackageFileName r ≠ "" ∧ IncludeSubpackages r = true
   ∧ Stat fs (Join q (PackageFileName r)) = None).

(** What is known of the state after a call: [A] when [filepath.Walk]
    may go on from it (the call returned [nil] or [SkipDir]), [B] when
    the call ends the walk. *)
Definition after (A B : wstate → Prop) (res : option error * wstate) : Prop :=
  match res.1 with
  | None | Some SkipDir => A res.2
  | Some _ => B res.2
  end.

(** The paths strictly below [root]. *)
Definition below (root p : path) : Prop := ∃ suffix, suffix ≠ [] ∧ p = root ++ suffix.

(** The state in which the walk starts. *)
Definition initial (r : t) (h : heap) : wstate :=
  mkState newMatcher h (SetAnnotations r) [] [] [].

(** The patterns in force: [DefaultMatch] when none is configured. *)
Definition globsOf (r : t) : list string :=
  if decide (length (MatchFilesGlob r) = 0) then DefaultMatch else MatchFilesGlob r.

(** The receiver after [Read] has set the default patterns in its copy. *)
Definition defaulted (r : t) : t :=
  if decide (length (MatchFilesGlob r) = 0) then with_MatchFilesGlob DefaultMatch r else r.

(** [Read].  Both results are returned, as the code does; the final state
    carries the store of maps and the trace. *)
Definition Read (r : t) (fs : filesystem) (h : heap) : (list RNode * option error) * wstate :=
  if decide (PackagePath r = "") then
    (([], Some (ErrMsg "must specify package path")), initial r h)
  else
    let pkg := ToSlash (PackagePath r) in
    let r := defaulted r in
    match Abs pkg with
    | Fail e => (([], Wrap (Some e)), initial r h)
    | Ok root =>
        let '(err, st) := Walk (walkFn r root fs) fs root (initial r h) in
        ((operand st, err), st)
    end.

End Reader.
End LocalPackageReader.

(** ** PackageBuffer *)

Module PackageBuffer.

Record t : Type := mk { Nodes : list RNode }.

Definition Read (r : t) : list RNode * option error := (Nodes r, None).

Definition Write (r : t) (nodes : list RNode) : option error * t := (None, mk nodes).

End PackageBuffer.

(** ** LocalPackageReadWriter *)

(** What [Write] meets outside: the [LocalPackageWriter] it delegates to
    (given its [PackagePath], [ClearAnnotations], [KeepReaderAnnotations]
    and the documents) and [os.Remove]. *)
Record WriteEnv : Type := mkEnv {
  LocalPackageWriter_Write : string → list string → bool → list RNode → option error;
  os_Remove : string → option error;
}.

(** What [Write] does outside, in order: the call to the writer and each
    call of [os.Remove], for the file [f] of the package at [target],
    with its outcome. *)
Inductive wevent : Type :=
| WriterCalled (pkg : string) (clear : list string) (keep : bool) (nodes : list RNode)
| Remove (f : string) (target : string) (outcome : option error).

(** The files whose removal was attempted, and those removed. *)
Definition attempted (evs : list wevent) : list string :=
  omap (λ ev, match ev with Remove f _ _ => Some f | _ => None end) evs.

Definition deleted (evs : list wevent) : list string :=
  omap (λ ev, match ev with Remove f _ None => Some f | _ => None end) evs.

(** The [ClearAnnotations] that the writer was given. *)
Definition cleared (evs : list wevent) : list (list string) :=
  omap (λ ev, match ev with WriterCalled _ c _ _ => Some c | _ => None end) evs.

Module LocalPackageReadWriter.

Record t : Type := mk {
  Kind : string;
  KeepReaderAnnotations : bool;
  PackagePath : string;
  PackageFileName : string;
  MatchFilesGlob : list string;
  IncludeSubpackages : bool;
  ErrorIfNonResources : bool;
  OmitReaderAnnotations : bool;
  SetAnnotations : option loc;
  NoDeleteFiles : bool;
  (** [sets.String], [nil] until a [Read] stores a set *)
  files : option (gset string);
}.

Definition with_OmitReaderAnnotations (b : bool) (r : t) : t :=
  mk (Kind r) (KeepReaderAnnotations r) (PackagePath r) (PackageFileName r)
     (MatchFilesGlob r) (IncludeSubpackages r) (ErrorIfNonResources r)
     b (SetAnnotations r) (NoDeleteFiles r) (files r).

Definition with_NoDeleteFiles (b : bool) (r : t) : t :=
  mk (Kind r) (KeepReaderAnnotations r) (PackagePath r) (PackageFileName r)
     (MatchFilesGlob r) (IncludeSubpackages r) (ErrorIfNonResources r)
     (OmitReaderAnnotations r) (SetAnnotations r) b (files r).

Definition with_files (f : option (gset string)) (r : t) : t :=
  mk (Kind r) (KeepReaderAnnotations r) (PackagePath r) (PackageFileName r)
     (MatchFilesGlob r) (IncludeSubpackages r) (ErrorIfNonResources r)
     (OmitReaderAnnotations r) (SetAnnotations r) (NoDeleteFiles r) f.

(** Modelled from the spec: [sets.String.Difference] (kyaml/sets, not part
    of this file) is the set difference; a [nil] set has no element. *)
Definition Difference (s : option (gset string)) (s2 : gset string) : gset string :=
  default ∅ s ∖ s2.

Section ReadWriter.
Context {K : Kioutil} {F : Filepath} {R : MapRange} {M : Type} {IM : IgnoreFilesMatcher M}.

(** The reader that [Read] builds: [OmitReaderAnnotations] and [Kind] are
    not among the fields it sets, so they have their zero values. *)
Definition reader (r : t) : LocalPackageReader.t :=
  LocalPackageReader.mk "" (PackagePath r) (PackageFileName r) (MatchFilesGlob r)
    (IncludeSubpackages r) (ErrorIfNonResources r) false (SetAnnotations r).

(** [getFiles]; [val] is the set built so far. *)
Fixpoint getFiles_from (val : gset string) (nodes : list RNode) : result (gset string) :=
  match nodes with
  | [] => Ok val
  | n :: nodes' =>
      match GetFileAnnotations n with
      | Fail e => Fail (Wrapped e)
      | Ok (p, _) => getFiles_from (val ∪ {[p]}) nodes'
      end
  end.

Definition getFiles (nodes : list RNode) : result (gset string) :=
  getFiles_from ∅ nodes.

(** [Read].  Returns the result, the receiver as the call leaves it, and
    the final state of the reader (store of maps, trace). *)
Definition Read (r : t) (fs : filesystem) (h : heap)
    : result (list RNode) * t * LocalPackageReader.wstate (M:=M) :=
  let '((nodes, err), st) := LocalPackageReader.Read (reader r) fs h in
  match err with
  | Some e => (Fail (Wrapped e), r, st)
  | None =>
      if negb (NoDeleteFiles r) then
        match getFiles nodes with
        | Fail e => (Fail (Wrapped e), with_files None r, st)
        | Ok val => (Ok nodes, with_files (Some val) r, st)
        end
      else (Ok nodes, r, st)
  end.

(** The delete loop of [Write] over the files in the order [range] gives
    them. *)
Fixpoint removeFiles (env : WriteEnv) (pkg : string) (fs : list string)
    : option error * list wevent :=
  match fs with
  | [] => (None, [])
  | f :: fs' =>
      let target := JoinStr pkg f in
      match os_Remove env target with
      | Some e => (Wrap (Some e), [Remove f target (Some e)])
      | None =>
          let '(err, evs) := removeFiles env pkg fs' in
          (err, Remove f target None :: evs)
      end
  end.

(** [Write].  The receiver is not changed. *)
Definition Write (r : t) (h : heap) (env : WriteEnv) (nodes : list RNode)
    : option error * list wevent :=
  match getFiles nodes with
  | Fail e => (Wrap (Some e), [])
  | Ok newFiles =>
      let clear := rangeOrder (dom (deref h (SetAnnotations r))) in
      let call := WriterCalled (PackagePath r) clear (KeepReaderAnnotations r) nodes in
      match LocalPackageWriter_Write env (PackagePath r) clear (KeepReaderAnnotations r) nodes with
      | Some e => (Wrap (Some e), [call])
      | None =>
          let deleteFiles := Difference (files r) newFiles in
          let '(err, evs) := removeFiles env (PackagePath r) (rangeOrder deleteFiles) in
          (err, call :: evs)
      end
  end.

(** *** Sequences of calls

    A coordinator is used over time: [Read] on the tree as it is then,
    [Write] with some documents in some environment. *)
Inductive op : Type :=
| OpRead (fs : filesystem)
| OpWrite (env : WriteEnv) (nodes : list RNode).

Inductive outcome : Type :=
| DidRead (res : result (list RNode)) (tr : list event)
| DidWrite (err : option error) (evs : list wevent).

Definition step (o : op) (s : t * heap) : outcome * (t * heap) :=
  match o with
  | OpRead fs =>
      let '(res, r', st) := Read s.1 fs s.2 in
      (DidRead res (LocalPackageReader.trace st), (r', LocalPackageReader.maps st))
  | OpWrite env nodes =>
      let '(err, evs) := Write s.1 s.2 env nodes in
      (DidWrite err evs, s)
  end.

Fixpoint run (ops : list op) (s : t * heap) : list outcome * (t * heap) :=
  match ops with
  | [] => ([], s)
  | o :: ops' =>
      let '(out, s') := step o s in
      let '(outs, s'') := run ops' s' in
      (out :: outs, s'')
  end.

(** The paths that [GetFileAnnotations] reads off some documents. *)
Definition pathsOf (nodes : list RNode) : list string :=
  omap (λ n, match GetFileAnnotations n with
             | Ok (p, _) => Some p
             | Fail _ => None
             end) nodes.

(** The paths of the documents that successful reads returned. *)
Definition seen (outs : list outcome) : list string :=
  outs ≫= (λ o, match o with
                 | DidRead (Ok nodes) _ => pathsOf nodes
                 | _ => []
                 end).

(** The [ClearAnnotations] lists that writes handed to the writer. *)
Definition allCleared (outs : list outcome) : list (list string) :=
  outs ≫= (λ o, match o with
                 | DidWrite _ evs => cleared evs
                 | _ => []
                 end).

(** The files that writes deleted. *)
Definition allDeleted (outs : list outcome) : list string :=
  outs ≫= (λ o, match o with
                 | DidWrite _ evs => deleted evs
                 | _ => []
                 end).

(** Whether the path that [GetFileAnnotations] reads off a document is
    [f]. *)
Definition pathIs (f : string) (n : RNode) : bool :=
  match GetFileAnnotations n with
  | Ok (p, _) => bool_decide (p = f)
  | Fail _ => false
  end.

(** The files whose removal writes attempted. *)
Definition allAttempted (outs : list outcome) : list string :=
  outs ≫= (λ o, match o with
                 | DidWrite _ evs => attempted evs
                 | _ => []
                 end).

End ReadWriter.
End LocalPackageReadWriter.

(** ** A concrete platform

    Instances of the interfaces, on which the definitions above compute:
    the well-known annotation names, a [filepath] for slash-separated
    absolute paths whose [Match] understands literal characters, [*] and
    [?], an ignore matcher given by the lists of files and directories it
    excludes, and [range] in the order of [elements]. *)
Module Platform.

(** The accessor reads the two annotations off the document; one that
    is not there reads as the empty string. *)
#[export] Instance kioutil : Kioutil := {|
  PathAnnotation := "config.kubernetes.io/path";
  IndexAnnotation := "config.kubernetes.io/index";
  GetFileAnnotations n :=
    Ok (default "" (annotations n !! "config.kubernetes.io/path"),
        default "" (annotations n !! "config.kubernetes.io/index"));
|}.

(** The components of a slash-separated path; [cur] is the component
    being read. *)
Fixpoint components (cur : string) (s : string) : list string :=
  match s with
  | EmptyString => if decide (cur = "") then [] else [cur]
  | String c s' =>
      if decide (c = "/"%char)
      then (if decide (cur = "") then [] else [cur]) ++ components "" s'
      else components (cur +:+ String c "") s'
  end.

Fixpoint glob (pat name : string) : bool :=
  match pat with
  | EmptyString => bool_decide (name = "")
  | String c pat' =>
      if decide (c = "*"%char) then
        (fix star (name : string) : bool :=
           glob pat' name ||
           match name with
           | EmptyString => false
           | String d name' => negb (bool_decide (d = "/"%char)) && star name'
           end) name
      else
        match name with
        | EmptyString => false
        | String d name' =>
            (if decide (c = "?"%char) then negb (bool_decide (d = "/"%char))
             else bool_decide (c = d)) && glob pat' name'
        end
  end.

#[export] Instance filepath : Filepath := {|
  ToSlash s := s;
  Abs s := Ok (components "" s);
  Match pat name := Ok (glob pat name);
  JoinStr a b := a +:+ "/" +:+ b;
|}.

(** The matcher's state is the list of directories whose ignore file it
    was asked to read. *)
Definition excluding (files dirs : list path) : IgnoreFilesMatcher (list path) := {|
  newMatcher := [];
  readIgnoreFile m p := (None, m ++ [p]);
  matchFile m p := (bool_decide (p ∈ files), m);
  matchDir m p := (bool_decide (p ∈ dirs), m);
|}.

Definition noIgnore : IgnoreFilesMatcher (list path) := excluding [] [].

#[export] Instance inOrder : MapRange := {|
  rangeOrder := elements;
  rangeOrder_perm := λ s, reflexivity (elements s);
|}.

(** A document with no annotation. *)
Definition doc (b : string) : RNode := {| annotations := ∅; body := b |}.

End Platform.

(** ** Example packages *)

Module Examples.
Import Platform.

(** A package with three files. *)
Definition flat : filesystem :=
  [("pkg", Dir None [("a.yaml", File (Ok [doc "a0"; doc "a1"]));
                     ("b.json", File (Ok [doc "b0"]));
                     ("c.yml", File (Ok [doc "c0"]))])].


(** A package whose root holds the marker file, with a directory that is
    a sub-package and one that is not. *)
Definition nested : filesystem :=
  [("pkg", Dir None [("Kptfile", File (Ok [doc "k"]));
                     ("a.yaml", File (Ok [doc "a0"]));
                     ("lib", Dir None [("x.yaml", File (Ok [doc "x0"]))]);
                     ("sub", Dir None [("Kptfile", File (Ok [doc "k"]));
                                       ("y.yaml", File (Ok [doc "y0"]))])])].

(** Readers of ["/pkg"]: with no marker, and with [Kptfile] as marker. *)
Definition plain : LocalPackageReader.t :=
  LocalPackageReader.mk "" "/pkg" "" [] false false false None.

Definition marked : LocalPackageReader.t :=
  LocalPackageReader.mk "" "/pkg" "Kptfile" [] false false false None.

(** A reader of the single file ["/pkg/a.yaml"]. *)
Definition single : LocalPackageReader.t :=
  LocalPackageReader.mk "" "/pkg/a.yaml" "" [] false false false None.

(** A reader that shares the map at location 1 with its caller. *)
Definition sharing : LocalPackageReader.t :=
  LocalPackageReader.mk "" "/pkg" "" [] false false false (Some 1%positive).


(** Coordinators of ["/pkg"], new (no stored file set): one with
    [OmitReaderAnnotations] set, one that shares the map at location 1. *)
Definition coordinator : LocalPackageReadWriter.t :=
  LocalPackageReadWriter.mk "" false "/pkg" "" [] false false true None false None.


(** Environments of [Write]: all goes well; the writer fails; every
    removal fails. *)
Definition allOk : WriteEnv := mkEnv (λ _ _ _ _, None) (λ _, None).

Definition writerFails : WriteEnv :=
  mkEnv (λ _ _ _ _, Some (ErrOS "disk full")) (λ _, None).

Definition removeFails : WriteEnv :=
  mkEnv (λ _ _ _ _, None) (λ _, Some (ErrOS "permission denied")).

(** The state of a walk of ["/pkg"] after the root directory was
    entered. *)
Definition inRoot : LocalPackageReader.wstate (M:=list path) :=
  LocalPackageReader.set_pathRelativeTo ["pkg"]
    (LocalPackageReader.initial (IM:=noIgnore) plain ∅).

(** The coordinator after it has read [flat]. *)
Definition afterRead : LocalPackageReadWriter.t * heap :=
  (LocalPackageReadWriter.run (IM:=noIgnore)
     [LocalPackageReadWriter.OpRead flat] (coordinator, ∅)).2.



End Examples.

(** ** More example packages *)

Module MoreExamples.
Import Platform Examples.

(** A matcher that cannot load any ignore file. *)
Definition brokenIgnore : IgnoreFilesMatcher (list path) := {|
  newMatcher := [];
  readIgnoreFile m p := (Some (ErrOS "cannot read .krmignore"), m);
  matchFile m p := (false, m);
  matchDir m p := (false, m);
|}.

(** [nested] when the marker file of [sub] cannot be examined. *)
Definition guarded : filesystem :=
  [("pkg", Dir None [("a.yaml", File (Ok [doc "a0"]));
                     ("sub", Dir None [("Kptfile", Bad (ErrOS "permission denied"));
                                       ("y.yaml", File (Ok [doc "y0"]))]);
                     ("z.yaml", File (Ok [doc "z0"]))])].

(** The reader [marked] with sub-packages included. *)
Definition including : LocalPackageReader.t :=
  LocalPackageReader.mk "" "/pkg" "Kptfile" [] true false false None.

(** A store with the map that [sharing] uses and another one. *)
Definition twoMaps : heap :=
  {[ 1%positive := {[ "team" := "core" ]}; 2%positive := {[ "owner" := "ops" ]} ]}.

(** A new coordinator that does not track files. *)
Definition untracked : LocalPackageReadWriter.t :=
  LocalPackageReadWriter.mk "" false "/pkg" "" [] false false false None true None.

(** What the coordinator read from [flat]. *)
Definition readNodes : list RNode :=
  (LocalPackageReader.Read (IM:=noIgnore) plain flat ∅).1.1.

End MoreExamples.

(** * Properties *)

(** ** The walk *)

(** Induction on a tree: the entries of a directory satisfy the
    property. *)
Lemma fsnode_induction (P : fsnode → Prop) :
  (∀ d, P (File d)) →
  (∀ e, P (Bad e)) →
  (∀ rd es, Forall (λ x, P x.2) es → P (Dir rd es)) →
  ∀ n, P n.
Proof.
  intros HF HB HD. fix IH 1. intros [d|rd es|e].
  - apply HF.
  - apply HD. induction es as [|[name c] es IHes]; constructor.
    + apply IH.
    + apply IHes.
  - apply HB.
Qed.

Section WalkFacts.
Context {K : Kioutil} {F : Filepath} {M : Type} {IM : IgnoreFilesMatcher M}.
Import LocalPackageReader.

Implicit Types (st : wstate (M:=M)) (r : t) (p root : path) (fs : filesystem).
Implicit Types fn : path → option fsnode → option error → Walker (M:=M) (option error).

(** [walk] on a directory: the call on the directory itself, then the
    loop over its entries. *)
Lemma walk_Dir fn p rd es st :
  walk fn p (Dir rd es) st =
  let '(err1, st1) := fn p (Some (Dir rd es)) rd st in
  match rd, err1 with
  | None, None => walkChildren fn p es st1
  | _, _ => (err1, st1)
  end.
Proof.
  simpl. destruct (fn p (Some (Dir rd es)) rd st) as [err1 st1].
  destruct rd, err1; try reflexivity.
  revert st1. induction es as [|[name child] es IH]; intros st1; [reflexivity|].
  cbn [walkChildren].
  destruct child;
    match goal with
    | |- context [match ?w with (_, _) => _ end] => destruct w as [[e'|] st']
    end; rewrite ?IH; reflexivity.
Qed.

(** A property of the state that every call of the walk function keeps is
    kept by the whole walk. *)
Lemma walk_invariant (P : wstate (M:=M) → Prop) fn :
  (∀ p info err st, P st → P (fn p info err st).2) →
  ∀ n p st, P st → P (walk fn p n st).2.
Proof.
  intros Hfn n. induction n as [d|e|rd es IH] using fsnode_induction; intros p st HP.
  - apply Hfn, HP.
  - apply Hfn, HP.
  - pose proof (walk_Dir fn p rd es st) as ->.
    pose proof (Hfn p (Some (Dir rd es)) rd st HP) as H1.
    destruct (fn p (Some (Dir rd es)) rd st) as [err1 st1]. simpl in *.
    destruct rd, err1; try exact H1.
    clear HP. revert st1 H1.
    induction IH as [|[name child] es Hc _ IHes]; intros st1 H1; [exact H1|].
    simpl in Hc. simpl. destruct child.
    + pose proof (Hc (Join p name) st1 H1) as H2.
      destruct (walk fn (Join p name) (File decoded) st1) as [[e'|] st']; simpl in *;
        [exact H2 | apply IHes, H2].
    + pose proof (Hc (Join p name) st1 H1) as H2.
      destruct (walk fn (Join p name) (Dir readdir entries) st1) as [[e'|] st']; simpl in *.
      * destruct (bool_decide _); simpl; [apply IHes, H2 | exact H2].
      * apply IHes, H2.
    + pose proof (Hfn (Join p name) None (Some e) st1 H1) as H2.
      destruct (fn (Join p name) None (Some e) st1) as [[e'|] st']; simpl in *.
      * destruct (bool_decide _); [apply IHes, H2 | exact H2].
      * apply IHes, H2.
Qed.

Lemma Walk_invariant (P : wstate (M:=M) → Prop) fn fs root st :
  (∀ p info err st, P st → P (fn p info err st).2) →
  P st → P (Walk fn fs root st).2.
Proof.
  intros Hfn HP. unfold Walk.
  destruct (Lstat fs root) as [info|e].
  - pose proof (walk_invariant P fn Hfn info root st HP) as H.
    destruct (walk fn root info st) as [err st']. exact H.
  - pose proof (Hfn root None (Some e) st HP) as H.
    destruct (fn root None (Some e) st) as [err st']. exact H.
Qed.

End WalkFacts.

(** ** What the walk function does at a file or a directory *)

Section VisitFacts.
Context {K : Kioutil} {F : Filepath} {M : Type} {IM : IgnoreFilesMatcher M}.
Import LocalPackageReader.

Implicit Types (st : wstate (M:=M)) (r : t) (p root : path) (fs : filesystem).

Lemma ShouldSkipFile_ignored r p st :
  (matchFile (ignoreFilesMatcher st) p).1 = true →
  ShouldSkipFile r p st =
    ((false, None), asked (EvMatchFile p) (matchFile (ignoreFilesMatcher st) p).2 st).
Proof.
  intros Hm. unfold ShouldSkipFile, call_matchFile, asked.
  destruct (matchFile (ignoreFilesMatcher st) p) as [b m]. simpl in *. by subst b.
Qed.

Lemma ShouldSkipFile_not_ignored r p st :
  (matchFile (ignoreFilesMatcher st) p).1 = false →
  ShouldSkipFile r p st =
    (matchGlobs (MatchFilesGlob r) (Base p),
     asked (EvMatchFile p) (matchFile (ignoreFilesMatcher st) p).2 st).
Proof.
  intros Hm. unfold ShouldSkipFile, call_matchFile, asked.
  destruct (matchFile (ignoreFilesMatcher st) p) as [b m]. simpl in *. by subst b.
Qed.

(** C6: a file that the ignore matcher excludes is never opened or
    decoded, whatever the glob patterns are.  When the walk reaches a file
    at [p] and [matchFile] answers [true] for [p], the walk function
    returns [nil] having done nothing but that query: the trace gains the
    query and no [EvOpen], no document is appended, no map is touched. *)
Theorem ignored_file_is_never_opened r root fs p d st :
  (matchFile (ignoreFilesMatcher st) p).1 = true →
  ∃ st', walk (walkFn r root fs) p (File d) st = (None, st')
    ∧ trace st' = trace st ++ [EvMatchFile p]
    ∧ operand st' = operand st
    ∧ maps st' = maps st
    ∧ rSetAnnotations st' = rSetAnnotations st.
Proof.
  intros Hm. simpl. unfold walkFn, skipOrRead. simpl.
  destruct (bool_decide (p = root)).
  - rewrite ShouldSkipFile_ignored by exact Hm. simpl. eexists; split; [reflexivity|]. done.
  - rewrite ShouldSkipFile_ignored by exact Hm. simpl. eexists; split; [reflexivity|]. done.
Qed.

(** C4: a directory met during the walk (any but the root, which the
    walk function enters before this test is made) that contains the
    configured marker file is not descended into when
    [IncludeSubpackages] is false, in whatever state the ignore matcher
    is.  The walk of such a directory ends with [SkipDir] after the one
    [Stat] of the marker (or with the error of reading the directory):
    the matcher is neither asked nor changed and no entry is visited; the
    walk of the parent goes on with the next entry. *)
Theorem subpackage_is_not_descended r root fs p rd es st :
  p ≠ root →
  PackageFileName r ≠ "" →
  Stat fs (Join p (PackageFileName r)) = None →
  IncludeSubpackages r = false →
  walk (walkFn r root fs) p (Dir rd es) st =
    match rd with
    | None => (Some SkipDir, emit (EvStat (Join p (PackageFileName r))) st)
    | Some e => (Some (Wrapped e), st)
    end
  ∧ ∀ q name rest st0,
      p = Join q name →
      walkChildren (walkFn r root fs) q ((name, Dir None es) :: rest) st0 =
      walkChildren (walkFn r root fs) q rest
        (emit (EvStat (Join p (PackageFileName r))) st0).
Proof.
  intros Hroot Hname Hstat Hinc.
  assert (Hfn : ∀ es' st', walkFn r root fs p (Some (Dir None es')) None st' =
            (Some SkipDir, emit (EvStat (Join p (PackageFileName r))) st')).
  { intros es' st'. unfold walkFn, skipOrRead, ShouldSkipDir. simpl.
    rewrite bool_decide_eq_false_2 by exact Hroot.
    destruct (decide (PackageFileName r = "")) as [?|_]; [done|].
    rewrite Hstat, Hinc. reflexivity. }
  split.
  - pose proof (walk_Dir (walkFn r root fs) p rd es st) as ->.
    destruct rd as [e|].
    + reflexivity.
    + rewrite Hfn. reflexivity.
  - intros q name rest st0 ->. cbn [walkChildren].
    pose proof (walk_Dir (walkFn r root fs) (Join q name) None es st0) as ->.
    rewrite Hfn. reflexivity.
Qed.

Lemma walkFn_readIgnore r root fs p info err st :
  (∀ q, EvReadIgnore q ∈ trace st → loadsIgnoreFile r root fs q) →
  ∀ q, EvReadIgnore q ∈ trace (walkFn r root fs p info err st).2 →
       loadsIgnoreFile r root fs q.
Proof.
  intros HP q. unfold walkFn.
  destruct err as [e|]; [apply HP|].
  assert (Hskip : ∀ st0, trace st0 = trace st →
            EvReadIgnore q ∈ trace (skipOrRead r fs p (from_option IsDir false info) st0).2 →
            loadsIgnoreFile r root fs q).
  { intros st0 Htr. unfold skipOrRead.
    destruct (from_option IsDir false info).
    - unfold ShouldSkipDir, call_matchDir, call_readIgnoreFile.
      destruct (decide (PackageFileName r = "")) as [Hn|Hn].
      + destruct (matchDir _ _) as [b m]. simpl. rewrite Htr.
        rewrite elem_of_app, list_elem_of_singleton. intros [?|?]; [by apply HP | done].
      + destruct (Stat fs (Join p (PackageFileName r))) as [e|] eqn:Hst.
        * destruct (IsNotExist (Some e)).
          -- destruct (matchDir _ _) as [b m]. simpl. rewrite Htr.
             rewrite !elem_of_app, !list_elem_of_singleton.
             intros [[?|?]|?]; [by apply HP | done | done].
          -- simpl. rewrite Htr. rewrite elem_of_app, list_elem_of_singleton.
             intros [?|?]; [by apply HP | done].
        * destruct (IncludeSubpackages r) eqn:Hinc; simpl.
          -- destruct (readIgnoreFile _ _) as [e m]. simpl. rewrite Htr.
             rewrite !elem_of_app, !list_elem_of_singleton.
             intros [[?|?]|?]; [by apply HP | done |].
             right. by simplify_eq.
          -- rewrite Htr. rewrite elem_of_app, list_elem_of_singleton.
             intros [?|?]; [by apply HP | done].
    - unfold ShouldSkipFile, call_matchFile.
      destruct (matchFile _ _) as [b m]. simpl.
      assert (Hq : EvReadIgnore q ∈ trace st0 ++ [EvMatchFile p] → loadsIgnoreFile r root fs q).
      { rewrite Htr, elem_of_app, list_elem_of_singleton.
        intros [?|?]; [by apply HP | done]. }
      destruct b; simpl; [exact Hq|].
      destruct (matchGlobs _ _) as [[|] [e|]]; simpl; try exact Hq.
      unfold annotateAndRead, readFile, initReaderAnnotations. simpl.
      match goal with |- context [ByteReader_Read ?a ?b ?c] =>
        destruct (ByteReader_Read a b c) as [nodes|e] end;
      destruct (rSetAnnotations _), (OmitReaderAnnotations r); simpl;
      rewrite elem_of_app, list_elem_of_singleton;
      (intros [?|?]; [by apply Hq | done]). }
  destruct (bool_decide (p = root)) eqn:Hp.
  - apply bool_decide_eq_true_1 in Hp. subst p.
    destruct (from_option IsDir false info) eqn:Hd.
    + unfold call_readIgnoreFile. simpl.
      destruct (readIgnoreFile _ _) as [e m]. simpl.
      rewrite elem_of_app, list_elem_of_singleton.
      intros [?|?]; [by apply HP |]. left. by simplify_eq.
    + apply Hskip. reflexivity.
  - apply Hskip. reflexivity.
Qed.

(** C3, as the code has it: a directory other than the root that does not
    hold the marker file (or when no marker is configured) and that the
    ignore matcher does not exclude is descended into, but its ignore file
    is not loaded.  The walk function asks [matchDir] (after the [Stat]
    of the marker if one is configured) and nothing else before the
    entries are walked; over a whole [Read], [readIgnoreFile] is called
    only for the root and for directories that hold the marker when
    sub-packages are included. *)
Theorem unmarked_directory_is_descended_without_loading_its_ignore_file
    r root fs p es st :
  p ≠ root →
  PackageFileName r = "" ∨ Stat fs (Join p (PackageFileName r)) = Some ErrNotExist →
  (matchDir (ignoreFilesMatcher st) p).1 = false →
  walk (walkFn r root fs) p (Dir None es) st =
    walkChildren (walkFn r root fs) p es
      (asked (EvMatchDir p) (matchDir (ignoreFilesMatcher st) p).2
         (if decide (PackageFileName r = "") then st
          else emit (EvStat (Join p (PackageFileName r))) st))
  ∧ ∀ st0 q,
      trace st0 = [] →
      EvReadIgnore q ∈ trace (Walk (walkFn r root fs) fs root st0).2 →
      loadsIgnoreFile r root fs q.
Proof.
  intros Hroot Hmark Hdir. split.
  - pose proof (walk_Dir (walkFn r root fs) p None es st) as ->.
    unfold walkFn, skipOrRead, ShouldSkipDir, call_matchDir, asked. simpl.
    rewrite bool_decide_eq_false_2 by exact Hroot.
    destruct (decide (PackageFileName r = "")) as [Hn|Hn].
    + destruct (matchDir _ _) as [b m]. simpl in *. subst b. reflexivity.
    + destruct Hmark as [?|Hst]; [done|]. rewrite Hst. simpl.
      destruct (matchDir _ _) as [b m]. simpl in *. subst b. reflexivity.
  - intros st0 q Htr.
    revert q.
    apply (Walk_invariant
             (λ st, ∀ q, EvReadIgnore q ∈ trace st → loadsIgnoreFile r root fs q)).
    + intros p' info err st' HP. apply walkFn_readIgnore, HP.
    + intros q. rewrite Htr. by intros ?%elem_of_nil.
Qed.

End VisitFacts.

(** ** Paths *)

Lemma Rel_Dir_Base (p : path) :
  p ≠ [] → show_rel (Rel (Dir_ p) p) = Base p.
Proof.
  intros Hp. unfold Dir_, Base.
  assert (H : Rel (removelast p) p = [List.last p "/"]).
  { induction p as [|a [|b t] IH]; [done|reflexivity|].
    change (removelast (a :: b :: t)) with (a :: removelast (b :: t)).
    change (List.last (a :: b :: t) "/") with (List.last (b :: t) "/").
    cbn [Rel]. rewrite decide_True by reflexivity. by apply IH. }
  rewrite H. reflexivity.
Qed.

Lemma Rel_Join (dir : path) (name : string) : Rel dir (Join dir name) = [name].
Proof.
  unfold Join. induction dir as [|a dir IH]; [reflexivity|].
  cbn [Rel app]. by rewrite decide_True.
Qed.

Lemma JoinRel_name (dir : path) (name : string) :
  name ≠ ".." → name ≠ "." → JoinRel dir [name] = Join dir name.
Proof.
  intros H1 H2. unfold JoinRel, Join. simpl.
  by rewrite !decide_False.
Qed.

Lemma Base_Join (dir : path) (name : string) : Base (Join dir name) = name.
Proof. unfold Base, Join. apply last_last. Qed.

Lemma Join_ne (dir : path) (name : string) : Join dir name ≠ dir.
Proof.
  unfold Join. intros H. apply (f_equal length) in H.
  rewrite length_app in H. simpl in H. lia.
Qed.

(** An entry of a directory is found under the path of the directory. *)
Lemma resolve_Join (es : list (string * fsnode)) (dir : path) rd es' (name : string) :
  resolve es dir = Ok (Dir rd es') →
  resolve es (Join dir name) =
    match find_entry name es' with
    | None => Fail ErrNotExist
    | Some (Bad e) => Fail e
    | Some n => Ok n
    end.
Proof.
  unfold Join. revert es. induction dir as [|c dir IH]; intros es.
  - simpl. intros [= <- <-]. by destruct (find_entry name es) as [[]|].
  - simpl. destruct (find_entry c es) as [[d|rd0 es0|e]|]; try done.
    + by destruct dir.
    + destruct dir as [|c' dir].
      * intros [= <- <-]. simpl. by destruct (find_entry name es0) as [[]|].
      * intros H. apply IH in H. exact H.
Qed.

(** ** Annotations set by the reader *)

Section StampFacts.
Context {K : Kioutil}.

Lemma stamp_has_key omit (extra : annots) i n k :
  is_Some (extra !! k) → is_Some (annotations (stamp omit extra i n) !! k).
Proof.
  intros [v Hv]. unfold stamp. simpl.
  assert (H : (extra ∪ annotations n) !! k = Some v)
    by (apply lookup_union_Some_l, Hv).
  destruct omit; [by eexists|].
  destruct (decide (IndexAnnotation = k)) as [->|Hne].
  - rewrite lookup_insert_eq. by eexists.
  - rewrite lookup_insert_ne by done. by eexists.
Qed.

Lemma stamp_value omit (extra : annots) i n k v :
  k ≠ IndexAnnotation → extra !! k = Some v →
  annotations (stamp omit extra i n) !! k = Some v.
Proof.
  intros Hne Hv. unfold stamp. simpl.
  assert (H : (extra ∪ annotations n) !! k = Some v)
    by (apply lookup_union_Some_l, Hv).
  destruct omit; [done|]. by rewrite lookup_insert_ne.
Qed.

Lemma ByteReader_Read_elem omit (extra : annots) d nodes n :
  ByteReader_Read omit extra d = Ok nodes → n ∈ nodes →
  ∃ i n0, n = stamp omit extra i n0.
Proof.
  destruct d as [docs|e]; [|done]. simpl. intros [= <-].
  intros (i & n0 & -> & _)%elem_of_lookup_imap. eauto.
Qed.

End StampFacts.

(** ** Reading a file *)

Section ReadFacts.
Context {K : Kioutil} {F : Filepath} {M : Type} {IM : IgnoreFilesMatcher M}.
Import LocalPackageReader.

Implicit Types (st : wstate (M:=M)) (r : t) (p root : path) (fs : filesystem).

(** The map that the byte reader is given after [initReaderAnnotations]. *)
Lemma initReaderAnnotations_deref r rel st :
  let st' := initReaderAnnotations r rel st in
  deref (maps st') (rSetAnnotations st') =
    if OmitReaderAnnotations r then deref (maps st) (rSetAnnotations st)
    else <[PathAnnotation := rel]> (deref (maps st) (rSetAnnotations st)).
Proof.
  unfold initReaderAnnotations.
  destruct (rSetAnnotations st) as [l|] eqn:Hl, (OmitReaderAnnotations r); simpl.
  - reflexivity.
  - by rewrite lookup_total_insert_eq.
  - by rewrite lookup_total_insert_eq.
  - by rewrite !lookup_total_insert_eq.
Qed.

Lemma initReaderAnnotations_frame r rel st :
  let st' := initReaderAnnotations r rel st in
  ignoreFilesMatcher st' = ignoreFilesMatcher st ∧ pathRelativeTo st' = pathRelativeTo st
  ∧ operand st' = operand st ∧ trace st' = trace st.
Proof.
  unfold initReaderAnnotations.
  by destruct (rSetAnnotations st), (OmitReaderAnnotations r).
Qed.


(** What [annotateAndRead] does, spelled out. *)
Lemma annotateAndRead_eq r fs p st :
  let rel := Rel (pathRelativeTo st) p in
  let target := JoinRel (pathRelativeTo st) rel in
  let st1 := initReaderAnnotations r (show_rel rel) st in
  let extra := if OmitReaderAnnotations r then deref (maps st) (rSetAnnotations st)
               else <[PathAnnotation := show_rel rel]> (deref (maps st) (rSetAnnotations st)) in
  annotateAndRead r fs p st =
    match ByteReader_Read (OmitReaderAnnotations r) extra (openAndDecode fs target) with
    | Fail e => (Some (WrapPrefix e (show_abs target)), emit (EvOpen target) st1)
    | Ok nodes => (None, append_operand nodes (emit (EvOpen target) st1))
    end.
Proof.
  intros rel target st1 extra. unfold annotateAndRead, readFile.
  fold rel. fold st1.
  destruct (initReaderAnnotations_frame r (show_rel rel) st) as (_ & Hrel & _ & _).
  fold st1 in Hrel. rewrite Hrel. fold target.
  pose proof (initReaderAnnotations_deref r (show_rel rel) st) as Hd.
  simpl in Hd. fold st1 in Hd. rewrite Hd. fold extra.
  by destruct (ByteReader_Read _ _ _).
Qed.

(** Every call of the walk function either leaves the maps, the documents
    and the list of opened files as they are, or is [annotateAndRead] in
    a state that has them as they are. *)
Lemma walkFn_effect r root fs p info err st :
  let st' := (walkFn r root fs p info err st).2 in
  (maps st' = maps st ∧ rSetAnnotations st' = rSetAnnotations st
   ∧ operand st' = operand st ∧ opened (trace st') = opened (trace st))
  ∨ ∃ st0,
      maps st0 = maps st ∧ rSetAnnotations st0 = rSetAnnotations st
      ∧ operand st0 = operand st ∧ opened (trace st0) = opened (trace st)
      ∧ (p = root → pathRelativeTo st0 = Dir_ root)
      ∧ st' = (annotateAndRead r fs p st0).2.
Proof.
  unfold walkFn. destruct err as [e|]; [by left|].
  assert (Hskip : ∀ st0,
    maps st0 = maps st → rSetAnnotations st0 = rSetAnnotations st →
    operand st0 = operand st → trace st0 = trace st →
    (p = root → from_option IsDir false info = false → pathRelativeTo st0 = Dir_ root) →
    let st' := (skipOrRead r fs p (from_option IsDir false info) st0).2 in
    (maps st' = maps st ∧ rSetAnnotations st' = rSetAnnotations st
     ∧ operand st' = operand st ∧ opened (trace st') = opened (trace st))
    ∨ ∃ st1,
        maps st1 = maps st ∧ rSetAnnotations st1 = rSetAnnotations st
        ∧ operand st1 = operand st ∧ opened (trace st1) = opened (trace st)
        ∧ (p = root → pathRelativeTo st1 = Dir_ root)
        ∧ st' = (annotateAndRead r fs p st1).2).
  { intros st0 Hm Hl Ho Ht Hrel. unfold skipOrRead.
    destruct (from_option IsDir false info).
    - left. unfold ShouldSkipDir, call_matchDir, call_readIgnoreFile.
      destruct (decide (PackageFileName r = "")).
      + destruct (matchDir _ _) as [b m]. simpl.
        rewrite Ht. unfold opened. rewrite omap_app. simpl. by rewrite app_nil_r.
      + destruct (IsNotExist _).
        * destruct (matchDir _ _) as [b m]. simpl.
          rewrite Ht. unfold opened. rewrite !omap_app. simpl. by rewrite !app_nil_r.
        * destruct (Stat _ _); simpl.
          -- rewrite Ht. unfold opened. rewrite !omap_app. simpl. by rewrite !app_nil_r.
          -- destruct (IncludeSubpackages r); simpl.
             ++ destruct (readIgnoreFile _ _) as [b m]. simpl.
                rewrite Ht. unfold opened. rewrite !omap_app. simpl. by rewrite !app_nil_r.
             ++ rewrite Ht. unfold opened. rewrite !omap_app. simpl. by rewrite !app_nil_r.
    - unfold ShouldSkipFile, call_matchFile.
      destruct (matchFile _ _) as [b m].
      assert (Hop : opened (trace st0 ++ [EvMatchFile p]) = opened (trace st)).
      { rewrite Ht. unfold opened. rewrite omap_app. simpl. by rewrite app_nil_r. }
      destruct b; simpl; [by left|].
      destruct (matchGlobs _ _) as [[|] [e|]]; simpl; try by left.
      right. eexists. split_and!; [..|reflexivity]; simpl; try done.
      intros Hp. by apply Hrel. }
  destruct (bool_decide (p = root)) eqn:Hp.
  - destruct (from_option IsDir false info) eqn:Hd.
    + left. unfold call_readIgnoreFile. simpl.
      destruct (readIgnoreFile _ _) as [e m]. simpl.
      unfold opened. rewrite omap_app. simpl. by rewrite app_nil_r.
    + pose proof (Hskip (set_pathRelativeTo (Dir_ root) st)) as H.
      apply H; done.
  - apply bool_decide_eq_false_1 in Hp.
    pose proof (Hskip st) as H. apply H; done.
Qed.

End ReadFacts.

(** ** What [LocalPackageReader.Read] returns *)

Section ReaderResults.
Context {K : Kioutil} {F : Filepath} {M : Type} {IM : IgnoreFilesMatcher M}.
Import LocalPackageReader.

Implicit Types (st : wstate (M:=M)) (r : t) (p root : path) (fs : filesystem).

Lemma defaulted_fields r :
  OmitReaderAnnotations (defaulted r) = OmitReaderAnnotations r
  ∧ SetAnnotations (defaulted r) = SetAnnotations r
  ∧ PackageFileName (defaulted r) = PackageFileName r
  ∧ IncludeSubpackages (defaulted r) = IncludeSubpackages r
  ∧ MatchFilesGlob (defaulted r) = globsOf r.
Proof. unfold defaulted, globsOf. by destruct (decide _). Qed.

(** A property of the final state that holds of the initial state and
    that the walk function keeps holds after [Read]. *)
Lemma Read_invariant (P : wstate (M:=M) → Prop) r fs h :
  P (initial r h) →
  (∀ root p info err st, P st → P (walkFn (defaulted r) root fs p info err st).2) →
  P (Read r fs h).2.
Proof.
  intros H0 Hfn. unfold Read.
  assert (Hi : initial (defaulted r) h = initial r h).
  { unfold initial. by destruct (defaulted_fields r) as (_ & -> & _). }
  destruct (decide (PackagePath r = "")); [exact H0|].
  destruct (Abs _) as [root|e]; [|by rewrite Hi].
  pose proof (Walk_invariant P (walkFn (defaulted r) root fs) fs root (initial (defaulted r) h)
                (Hfn root)) as HW.
  rewrite Hi in *. specialize (HW H0).
  by destruct (Walk _ _ _ _) as [err st].
Qed.

Lemma Read_operand r fs h : (Read r fs h).1.1 = operand (Read r fs h).2.
Proof.
  unfold Read. destruct (decide _); [done|].
  destruct (Abs _); [|done]. by destruct (Walk _ _ _ _).
Qed.

(** Unless annotations are suppressed, every document that [Read]
    returns carries the path annotation. *)
Lemma Read_nodes_have_path r fs h n :
  OmitReaderAnnotations r = false →
  n ∈ (Read r fs h).1.1 → is_Some (annotations n !! PathAnnotation).
Proof.
  intros Homit. rewrite Read_operand. revert n.
  apply (Read_invariant (λ st, ∀ n, n ∈ operand st → is_Some (annotations n !! PathAnnotation))).
  - intros n. simpl. by intros ?%elem_of_nil.
  - intros root p info err st HP n.
    destruct (walkFn_effect (defaulted r) root fs p info err st)
      as [(_ & _ & -> & _) | (st0 & Hm & Hl & Ho & _ & _ & ->)]; [apply HP|].
    pose proof (annotateAndRead_eq (defaulted r) fs p st0) as Heq. simpl in Heq.
    rewrite Heq. clear Heq.
    destruct (defaulted_fields r) as (-> & _). rewrite Homit.
    destruct (ByteReader_Read _ _ _) as [nodes|e] eqn:Hread.
    + simpl. destruct (initReaderAnnotations_frame (defaulted r)
         (show_rel (Rel (pathRelativeTo st0) p)) st0) as (_ & _ & -> & _).
      rewrite Ho. intros [Hn|Hn]%elem_of_app; [by apply HP|].
      destruct (ByteReader_Read_elem _ _ _ _ _ Hread Hn) as (i & n0 & ->).
      apply stamp_has_key. rewrite lookup_insert_eq. by eexists.
    + simpl. destruct (initReaderAnnotations_frame (defaulted r)
         (show_rel (Rel (pathRelativeTo st0) p)) st0) as (_ & _ & -> & _).
      rewrite Ho. apply HP.
Qed.


(** C7: when the package path names a file, every document read from it
    carries the base name of that file as path annotation.  [Read]
    returns no other document; and when the file is not excluded, matches
    a pattern and decodes, [Read] returns exactly its documents, stamped
    with that annotation. *)
Theorem single_file_is_annotated_with_its_base_name r fs h root d :
  PackagePath r ≠ "" →
  Abs (ToSlash (PackagePath r)) = Ok root →
  Lstat fs root = Ok (File d) →
  OmitReaderAnnotations r = false →
  PathAnnotation ≠ IndexAnnotation →
  (∀ n, n ∈ (Read r fs h).1.1 → annotations n !! PathAnnotation = Some (Base root))
  ∧ ∀ docs,
      d = Ok docs →
      (matchFile newMatcher root).1 = false →
      matchGlobs (globsOf r) (Base root) = (true, None) →
      Base root ≠ ".." → Base root ≠ "." →
      (Read r fs h).1 =
        (imap (stamp false (<[PathAnnotation := Base root]> (deref h (SetAnnotations r)))) docs,
         None).
Proof.
  intros Hpkg Habs Hstat Homit Hne.
  assert (Hroot : root ≠ []).
  { intros ->. by unfold Lstat in Hstat. }
  assert (Hjoin : Base root ≠ ".." → Base root ≠ "." →
            JoinRel (Dir_ root) (Rel (Dir_ root) root) = root).
  { intros H1 H2. unfold Base in *.
    assert (H : Rel (Dir_ root) root = [List.last root "/"]).
    { unfold Dir_. clear -Hroot. induction root as [|a [|b t] IH]; [done|reflexivity|].
      change (removelast (a :: b :: t)) with (a :: removelast (b :: t)).
      change (List.last (a :: b :: t) "/") with (List.last (b :: t) "/").
      cbn [Rel]. rewrite decide_True by reflexivity. by apply IH. }
    rewrite H. unfold JoinRel. simpl. rewrite !decide_False by done.
    unfold Dir_. symmetry. by apply app_removelast_last. }
  unfold Read. rewrite decide_False by exact Hpkg. rewrite Habs.
  unfold Walk. rewrite Hstat. cbn [walk].
  destruct (defaulted_fields r) as (Ho & Hs & _ & _ & Hg).
  split.
  - intros n.
    destruct (walkFn_effect (defaulted r) root fs root (Some (File d)) None
                (initial (defaulted r) h))
      as [(_ & _ & Hop & _) | (st0 & Hm & Hl0 & Hop & _ & Hrel & Hst)].
    + destruct (walkFn _ _ _ _ _ _ _) as [err st]. simpl in *. rewrite Hop.
      by intros ?%elem_of_nil.
    + destruct (walkFn _ _ _ _ _ _ _) as [err st]. simpl in Hst. simpl. subst st.
      pose proof (annotateAndRead_eq (defaulted r) fs root st0) as Heq. simpl in Heq.
      rewrite Heq. clear Heq. rewrite Ho, Homit, Hrel by done.
      rewrite Rel_Dir_Base by done.
      destruct (ByteReader_Read _ _ _) as [nodes|e] eqn:Hread; simpl;
        destruct (initReaderAnnotations_frame (defaulted r) (Base root) st0)
          as (_ & _ & -> & _); rewrite Hop; simpl; [|by intros ?%elem_of_nil].
      intros Hn.
      destruct (ByteReader_Read_elem _ _ _ _ _ Hread Hn) as (i & n0 & ->).
      apply stamp_value; [done|]. by rewrite lookup_insert_eq.
  - intros docs -> Hmatch Hglob Hb1 Hb2.
    unfold walkFn, skipOrRead. simpl.
    rewrite bool_decide_eq_true_2 by done.
    rewrite ShouldSkipFile_not_ignored by exact Hmatch.
    rewrite Hg, Hglob. simpl.
    pose proof (annotateAndRead_eq (defaulted r) fs root
      (asked (EvMatchFile root) (matchFile newMatcher root).2
         (set_pathRelativeTo (Dir_ root) (initial (defaulted r) h)))) as Heq.
    simpl in Heq. rewrite Heq. clear Heq.
    rewrite Ho, Homit, Hs, Rel_Dir_Base, Hjoin by done.
    unfold openAndDecode. unfold Lstat in Hstat. rewrite Hstat. simpl.
    destruct (initReaderAnnotations_frame (defaulted r) (Base root)
      (asked (EvMatchFile root) (matchFile newMatcher root).2
         (set_pathRelativeTo (Dir_ root) (initial (defaulted r) h)))) as (_ & _ & -> & _).
    reflexivity.
Qed.

End ReaderResults.

(** ** The coordinator *)

Section CoordinatorFacts.
Context {K : Kioutil} {F : Filepath} {R : MapRange} {M : Type} {IM : IgnoreFilesMatcher M}.
Import LocalPackageReadWriter.

Implicit Types (r : t) (fs : filesystem) (h : heap) (env : WriteEnv).

(** *** [getFiles] *)

Lemma getFiles_from_elem (acc : gset string) nodes val f :
  getFiles_from acc nodes = Ok val → f ∈ val ↔ f ∈ acc ∨ f ∈ pathsOf nodes.
Proof.
  revert acc. induction nodes as [|n nodes IH]; intros acc; simpl.
  - intros [= <-]. unfold pathsOf. simpl. rewrite elem_of_nil. naive_solver.
  - unfold pathsOf. simpl. destruct (GetFileAnnotations n) as [[q i]|e]; [|done].
    intros H%IH. rewrite H, elem_of_union, elem_of_singleton, elem_of_cons.
    naive_solver.
Qed.

Lemma getFiles_elem nodes val f :
  getFiles nodes = Ok val → f ∈ val ↔ f ∈ pathsOf nodes.
Proof.
  intros H. rewrite (getFiles_from_elem ∅ nodes val f H). set_solver.
Qed.

(** *** The delete loop *)

Lemma removeFiles_all env pkg (l : list string) :
  (∀ f, f ∈ l → os_Remove env (JoinStr pkg f) = None) →
  removeFiles env pkg l = (None, (λ f, Remove f (JoinStr pkg f) None) <$> l).
Proof.
  induction l as [|f l IH]; intros Hok; [reflexivity|]. simpl.
  rewrite Hok by apply list_elem_of_here.
  rewrite IH; [reflexivity|]. intros g Hg. apply Hok. by apply list_elem_of_further.
Qed.

Lemma removeFiles_stops env pkg (l1 l2 : list string) f e :
  (∀ g, g ∈ l1 → os_Remove env (JoinStr pkg g) = None) →
  os_Remove env (JoinStr pkg f) = Some e →
  removeFiles env pkg (l1 ++ f :: l2) =
    (Some (Wrapped e),
     ((λ g, Remove g (JoinStr pkg g) None) <$> l1) ++ [Remove f (JoinStr pkg f) (Some e)]).
Proof.
  intros Hok Hf. induction l1 as [|g l1 IH]; simpl.
  - by rewrite Hf.
  - rewrite Hok by apply list_elem_of_here.
    rewrite IH; [reflexivity|]. intros g' Hg'. apply Hok. by apply list_elem_of_further.
Qed.

Lemma deleted_all pkg (l : list string) :
  deleted ((λ f, Remove f (JoinStr pkg f) None) <$> l) = l
  ∧ attempted ((λ f, Remove f (JoinStr pkg f) None) <$> l) = l.
Proof.
  unfold deleted, attempted. induction l as [|f l [IH1 IH2]]; [done|].
  split; simpl; f_equal; [exact IH1 | exact IH2].
Qed.

(** The loop either removes everything, or stops at the first file whose
    removal fails. *)
Lemma removeFiles_cases env pkg (l : list string) :
  (removeFiles env pkg l).1 = None
    ∧ deleted (removeFiles env pkg l).2 = l
    ∧ attempted (removeFiles env pkg l).2 = l
  ∨ ∃ l1 f l2 e,
      l = l1 ++ f :: l2
      ∧ os_Remove env (JoinStr pkg f) = Some e
      ∧ (removeFiles env pkg l).1 = Some (Wrapped e)
      ∧ deleted (removeFiles env pkg l).2 = l1
      ∧ attempted (removeFiles env pkg l).2 = l1 ++ [f].
Proof.
  induction l as [|f l IH]; [by left|]. simpl.
  destruct (os_Remove env (JoinStr pkg f)) as [e|] eqn:Hf.
  - right. exists [], f, l, e. by split_and!.
  - destruct (removeFiles env pkg l) as [err evs]. simpl in *.
    destruct IH as [(-> & Hd & Ha) | (l1 & g & l2 & e & -> & Hg & -> & Hd & Ha)].
    + left. unfold deleted, attempted in *. simpl. split_and!; [done|..]; f_equal; done.
    + right. exists (f :: l1), g, l2, e. unfold deleted, attempted in *. simpl.
      split_and!; [done|done|done|..]; f_equal; done.
Qed.

(** *** [Write] *)

(** The result of [Write] when [getFiles] and the writer succeed. *)
Lemma Write_eq r h env nodes new :
  getFiles nodes = Ok new →
  LocalPackageWriter_Write env (PackagePath r)
    (rangeOrder (dom (deref h (SetAnnotations r)))) (KeepReaderAnnotations r) nodes = None →
  Write r h env nodes =
    ((removeFiles env (PackagePath r) (rangeOrder (Difference (files r) new))).1,
     WriterCalled (PackagePath r) (rangeOrder (dom (deref h (SetAnnotations r))))
       (KeepReaderAnnotations r) nodes
     :: (removeFiles env (PackagePath r) (rangeOrder (Difference (files r) new))).2).
Proof.
  intros Hg Hw. unfold Write. rewrite Hg, Hw.
  by destruct (removeFiles _ _ _).
Qed.

(** Whatever happens, the files that [Write] tries to remove are in order
    a beginning of the difference. *)
Lemma Write_attempted r h env nodes f :
  f ∈ attempted (Write r h env nodes).2 →
  ∃ new, getFiles nodes = Ok new ∧ f ∈ Difference (files r) new.
Proof.
  unfold Write. destruct (getFiles nodes) as [new|e]; [|by intros ?%elem_of_nil].
  destruct (LocalPackageWriter_Write _ _ _ _ _).
  { unfold attempted. simpl. by intros ?%elem_of_nil. }
  intros Hf. exists new. split; [done|].
  destruct (removeFiles_cases env (PackagePath r) (rangeOrder (Difference (files r) new)))
    as [(_ & _ & Ha) | (l1 & g & l2 & e & Hl & _ & _ & _ & Ha)];
    destruct (removeFiles _ _ _) as [err evs]; simpl in *;
    unfold attempted in Hf; simpl in Hf; fold (attempted evs) in Hf; rewrite Ha in Hf.
  - by rewrite rangeOrder_perm, elem_of_elements in Hf.
  - assert (Hin : f ∈ rangeOrder (Difference (files r) new)).
    { rewrite Hl. rewrite elem_of_app, elem_of_cons.
      apply elem_of_app in Hf as [?|?%list_elem_of_singleton]; auto. }
    by rewrite rangeOrder_perm, elem_of_elements in Hin.
Qed.

Lemma deleted_attempted (evs : list wevent) f : f ∈ deleted evs → f ∈ attempted evs.
Proof.
  unfold deleted, attempted. rewrite !list_elem_of_omap.
  intros (ev & Hev & H). exists ev. split; [done|]. by destruct ev as [| ? ? []].
Qed.

Lemma removeFiles_cleared env pkg (l : list string) :
  cleared (removeFiles env pkg l).2 = [].
Proof.
  induction l as [|f l IH]; [done|]. simpl.
  destruct (os_Remove env (JoinStr pkg f)); [done|].
  by destruct (removeFiles env pkg l).
Qed.

Lemma rangeOrder_elem (s : gset string) x : x ∈ rangeOrder s ↔ x ∈ s.
Proof. by rewrite rangeOrder_perm, elem_of_elements. Qed.

Lemma rangeOrder_NoDup (s : gset string) : NoDup (rangeOrder s).
Proof. rewrite rangeOrder_perm. apply NoDup_elements. Qed.


(** *** [Read] *)

(** [Read] changes nothing of the receiver but [files]. *)
Lemma Read_receiver r fs h :
  (Read (M:=M) r fs h).1.2 = r
  ∨ ∃ f, (Read (M:=M) r fs h).1.2 = with_files f r.
Proof.
  unfold Read. destruct (LocalPackageReader.Read _ _ _) as [[nodes [e|]] st]; [by left|].
  destruct (NoDeleteFiles r); simpl; [by left|].
  destruct (getFiles nodes); right; by eexists.
Qed.


Lemma Read_Ok r fs h nodes :
  (Read (M:=M) r fs h).1.1 = Ok nodes →
  (LocalPackageReader.Read (M:=M) (reader r) fs h).1 = (nodes, None)
  ∧ if NoDeleteFiles r then (Read (M:=M) r fs h).1.2 = r
    else ∃ val, getFiles nodes = Ok val
                ∧ (Read (M:=M) r fs h).1.2 = with_files (Some val) r.
Proof.
  unfold Read. destruct (LocalPackageReader.Read _ _ _) as [[nodes0 [e|]] st]; [done|].
  destruct (NoDeleteFiles r); simpl.
  - by intros [= ->].
  - destruct (getFiles nodes0) as [val|e] eqn:Hg; [|done]. simpl.
    intros [= ->]. split; [done|]. by exists val.
Qed.

(** *** Sequences of calls *)

Lemma run_cons o ops (s : t * heap) :
  run (M:=M) (o :: ops) s =
    ((step (M:=M) o s).1 :: (run (M:=M) ops (step (M:=M) o s).2).1,
     (run (M:=M) ops (step (M:=M) o s).2).2).
Proof. simpl. destruct (step o s) as [out s']. simpl. by destruct (run ops s'). Qed.

(** The stored set only holds paths of documents that a successful
    [Read] returned, so only those are deleted. *)
Lemma run_deleted_seen ops r h (S : list string) :
  (∀ f, f ∈ default ∅ (files r) → f ∈ S) →
  ∀ i err evs f,
    (run (M:=M) ops (r, h)).1 !! i = Some (DidWrite err evs) →
    f ∈ deleted evs →
    f ∈ S ++ seen (take i (run (M:=M) ops (r, h)).1).
Proof.
  revert r h S. induction ops as [|o ops IH]; intros r h S HS i err evs f; [done|].
  rewrite run_cons. cbn [fst snd].
  destruct o as [fs|env nodes]; cbn [step fst snd].
  - destruct (Read (M:=M) r fs h) as [[res r'] st] eqn:HR. cbn [fst snd].
    destruct i as [|i]; [done|]. cbn [lookup list_lookup take]. intros Hi Hf.
    unfold seen. cbn [mbind list_bind]. fold (seen (take i (run (M:=M) ops (r', LocalPackageReader.maps st)).1)).
    rewrite app_assoc. apply (IH r' (LocalPackageReader.maps st)
        (S ++ match res with Ok nodes => pathsOf nodes | Fail _ => [] end)) with err evs;
      [|done|done].
    intros g Hg. apply elem_of_app.
    destruct res as [nodes|e].
    + pose proof (Read_Ok r fs h nodes) as HOk. rewrite HR in HOk.
      destruct (HOk eq_refl) as [_ Hfiles]. simpl in Hfiles.
      destruct (NoDeleteFiles r).
      * subst r'. left. by apply HS.
      * destruct Hfiles as (val & Hval & ->). simpl in Hg.
        right. by apply (getFiles_elem nodes val).
    + destruct (Read_receiver r fs h) as [Hr | [fl Hr]]; rewrite HR in Hr; simpl in Hr.
      * subst r'. left. by apply HS.
      * unfold Read in HR.
        destruct (LocalPackageReader.Read _ _ _) as [[nodes0 [e0|]] st0].
        { injection HR as _ <- _. left. by apply HS. }
        destruct (NoDeleteFiles r); [done|].
        destruct (getFiles nodes0); [done|].
        injection HR as _ <- _. simpl in Hg. by apply elem_of_empty in Hg.
  - destruct (Write r h env nodes) as [err0 evs0] eqn:HW. cbn [fst snd].
    destruct i as [|i]; cbn [lookup list_lookup take].
    + intros [= <- <-] Hf. apply elem_of_app. left. apply HS.
      apply deleted_attempted in Hf.
      pose proof (Write_attempted r h env nodes f) as Ha. rewrite HW in Ha.
      destruct (Ha Hf) as (new & _ & Hin). unfold Difference in Hin. set_solver.
    + intros Hi Hf. unfold seen. cbn [mbind list_bind app].
      by apply (IH r h S HS i err evs f).
Qed.


End CoordinatorFacts.

(** ** The coordinator: what the design document claims *)

Section CoordinatorClaims.
Context {K : Kioutil} {F : Filepath} {R : MapRange} {M : Type} {IM : IgnoreFilesMatcher M}.
Import LocalPackageReadWriter.

Implicit Types (r : t) (fs : filesystem) (h : heap) (env : WriteEnv).

(** C1, as the code has it: every file that [Write] deletes is in the
    stored file set minus the paths of the documents passed to [Write];
    when [Write] returns no error the deleted files are exactly that
    difference; with no stored set nothing is deleted.  The stored set is
    what a successful [Read] with deletion tracking recorded, the paths of
    the documents it returned.  Over any sequence of reads and writes
    that starts with no stored set, a deleted file is the path of a
    document that an earlier successful [Read] returned. *)
Theorem deleted_files_are_within_the_difference :
  (∀ r h env nodes f,
     f ∈ deleted (Write r h env nodes).2 →
     ∃ new, getFiles nodes = Ok new ∧ f ∈ Difference (files r) new)
  ∧ (∀ r h env nodes,
       (Write r h env nodes).1 = None →
       ∃ new, getFiles nodes = Ok new
              ∧ deleted (Write r h env nodes).2 ≡ₚ elements (Difference (files r) new))
  ∧ (∀ r h env nodes, files r = None → deleted (Write r h env nodes).2 = [])
  ∧ (∀ r fs h nodes,
       NoDeleteFiles r = false →
       (Read (M:=M) r fs h).1.1 = Ok nodes →
       ∃ val, files (Read (M:=M) r fs h).1.2 = Some val
              ∧ ∀ f, f ∈ val ↔ f ∈ pathsOf nodes)
  ∧ (∀ ops r h i err evs f,
       files r = None →
       (run (M:=M) ops (r, h)).1 !! i = Some (DidWrite err evs) →
       f ∈ deleted evs →
       f ∈ seen (take i (run (M:=M) ops (r, h)).1)).
Proof.
  assert (Hsub : ∀ r h env nodes f,
     f ∈ deleted (Write r h env nodes).2 →
     ∃ new, getFiles nodes = Ok new ∧ f ∈ Difference (files r) new).
  { intros r h env nodes f Hf. by apply (Write_attempted r h env), deleted_attempted. }
  split_and!.
  - exact Hsub.
  - intros r h env nodes. unfold Write.
    destruct (getFiles nodes) as [new|e]; [|done].
    destruct (LocalPackageWriter_Write _ _ _ _ _); [done|].
    destruct (removeFiles_cases env (PackagePath r) (rangeOrder (Difference (files r) new)))
      as [(_ & Hd & _) | (l1 & g & l2 & e & _ & _ & He & _)];
      destruct (removeFiles _ _ _) as [err evs]; simpl in *.
    + intros _. exists new. split; [done|].
      unfold deleted in *. simpl. rewrite Hd. apply rangeOrder_perm.
    + by rewrite He.
  - intros r h env nodes Hnil. apply elem_of_nil_inv. intros f Hf.
    destruct (Hsub r h env nodes f Hf) as (new & _ & Hin).
    unfold Difference in Hin. rewrite Hnil in Hin. set_solver.
  - intros r fs h nodes Hno HOk.
    destruct (Read_Ok r fs h nodes HOk) as [_ H]. rewrite Hno in H.
    destruct H as (val & Hval & ->). exists val. split; [done|].
    intros f. by apply getFiles_elem.
  - intros ops r h i err evs f Hnil Hi Hf.
    pose proof (run_deleted_seen ops r h [] ) as H. simpl in H.
    apply (H ltac:(rewrite Hnil; set_solver) i err evs f Hi Hf).
Qed.

(** The two ways in which [Read] fails.  When the tree walk fails the
    receiver, and with it the stored file set, is as it was.  The other
    return is taken when [getFiles] fails on the documents that the walk
    returned; there the assignment has put [nil] in the stored set. *)
Lemma failed_read_keeps_or_resets_the_stored_files r fs h e :
  (Read (M:=M) r fs h).1.1 = Fail e →
  ((LocalPackageReader.Read (M:=M) (reader r) fs h).1.2 ≠ None
   ∧ (Read (M:=M) r fs h).1.2 = r)
  ∨ ((LocalPackageReader.Read (M:=M) (reader r) fs h).1.2 = None
     ∧ NoDeleteFiles r = false
     ∧ (∃ e', getFiles (LocalPackageReader.Read (M:=M) (reader r) fs h).1.1 = Fail e')
     ∧ (Read (M:=M) r fs h).1.2 = with_files None r
     ∧ ∀ new, Difference (files (Read (M:=M) r fs h).1.2) new = ∅).
Proof.
  unfold Read. destruct (LocalPackageReader.Read _ _ _) as [[nodes [e0|]] st]; simpl.
  - intros _. by left.
  - destruct (NoDeleteFiles r); simpl; [done|].
    destruct (getFiles nodes) as [val|e'] eqn:Hg; simpl; [done|].
    intros _. right. split_and!; [done|done|by eexists|done|].
    intros new. unfold Difference. simpl. set_solver.
Qed.

(** C5, as the code has it: the delete loop stops at the first removal
    that fails.  In the order in which [range] yields the difference,
    the files before the failing one are removed, the failing removal is
    the last one attempted, its error (wrapped) is what [Write] returns,
    and the files after it are not attempted.  When no removal fails all
    of them are attempted and [Write] returns [nil]. *)
Theorem delete_loop_stops_at_the_first_failure r h env nodes new :
  getFiles nodes = Ok new →
  LocalPackageWriter_Write env (PackagePath r)
    (rangeOrder (dom (deref h (SetAnnotations r)))) (KeepReaderAnnotations r) nodes = None →
  ((∀ f, f ∈ Difference (files r) new → os_Remove env (JoinStr (PackagePath r) f) = None) →
   (Write r h env nodes).1 = None
   ∧ attempted (Write r h env nodes).2 = rangeOrder (Difference (files r) new)
   ∧ deleted (Write r h env nodes).2 = rangeOrder (Difference (files r) new))
  ∧ (∀ l1 f l2 e,
       rangeOrder (Difference (files r) new) = l1 ++ f :: l2 →
       (∀ g, g ∈ l1 → os_Remove env (JoinStr (PackagePath r) g) = None) →
       os_Remove env (JoinStr (PackagePath r) f) = Some e →
       (Write r h env nodes).1 = Some (Wrapped e)
       ∧ attempted (Write r h env nodes).2 = l1 ++ [f]
       ∧ deleted (Write r h env nodes).2 = l1
       ∧ ∀ g, g ∈ l2 → g ∉ attempted (Write r h env nodes).2).
Proof.
  intros Hg Hw. rewrite (Write_eq r h env nodes new Hg Hw). cbn [fst snd].
  assert (Hcall : ∀ evs c,
    attempted (WriterCalled (PackagePath r) c (KeepReaderAnnotations r) nodes :: evs)
      = attempted evs
    ∧ deleted (WriterCalled (PackagePath r) c (KeepReaderAnnotations r) nodes :: evs)
      = deleted evs) by done.
  split.
  - intros Hok.
    rewrite removeFiles_all by (intros f Hf; by apply Hok, rangeOrder_elem).
    cbn [fst snd]. destruct (Hcall
      ((λ f, Remove f (JoinStr (PackagePath r) f) None) <$> rangeOrder (Difference (files r) new))
      (rangeOrder (dom (deref h (SetAnnotations r))))) as [-> ->].
    destruct (deleted_all (PackagePath r) (rangeOrder (Difference (files r) new))) as [-> ->].
    done.
  - intros l1 f l2 e Hl Hok Hf. rewrite Hl.
    rewrite (removeFiles_stops env (PackagePath r) l1 l2 f e Hok Hf). cbn [fst snd].
    destruct (Hcall
      (((λ g, Remove g (JoinStr (PackagePath r) g) None) <$> l1)
         ++ [Remove f (JoinStr (PackagePath r) f) (Some e)])
      (rangeOrder (dom (deref h (SetAnnotations r))))) as [-> ->].
    unfold attempted, deleted. rewrite !omap_app. simpl.
    destruct (deleted_all (PackagePath r) l1) as [Hd Ha].
    unfold attempted, deleted in Hd, Ha. rewrite Hd, Ha, app_nil_r.
    split_and!; [done..|].
    intros g Hg2 Hg1.
    pose proof (rangeOrder_NoDup (Difference (files r) new)) as Hnd.
    rewrite Hl in Hnd. apply NoDup_app in Hnd as (_ & Hdis & Hnd2).
    apply NoDup_cons in Hnd2 as [Hf2 _].
    apply elem_of_app in Hg1 as [Hg1 | ->%list_elem_of_singleton]; [|done].
    apply (Hdis g Hg1). by apply list_elem_of_further.
Qed.

(** C9: [Read] of the coordinator stamps the path annotation on every
    document it returns even when its [OmitReaderAnnotations] is set: the
    reader it builds has the field unset, and the call gives the same
    result and leaves the same state as with the field unset. *)
Theorem read_writer_ignores_OmitReaderAnnotations r fs h nodes :
  OmitReaderAnnotations r = true →
  (Read (M:=M) r fs h).1.1 = Ok nodes →
  (∀ n, n ∈ nodes → is_Some (annotations n !! PathAnnotation))
  ∧ LocalPackageReader.OmitReaderAnnotations (reader r) = false
  ∧ (Read (M:=M) (with_OmitReaderAnnotations false r) fs h).1.1 = Ok nodes
  ∧ (Read (M:=M) (with_OmitReaderAnnotations false r) fs h).2 = (Read (M:=M) r fs h).2.
Proof.
  intros _ HOk. split_and!.
  - intros n Hn. destruct (Read_Ok r fs h nodes HOk) as [Hr _].
    apply (Read_nodes_have_path (M:=M) (reader r) fs h n); [done|]. by rewrite Hr.
  - reflexivity.
  - rewrite <- HOk. unfold Read, reader. simpl.
    destruct (LocalPackageReader.Read _ _ _) as [[nodes0 [e|]] st]; [done|].
    destruct (NoDeleteFiles r); [done|]. by destruct (getFiles nodes0).
  - unfold Read, reader. simpl.
    destruct (LocalPackageReader.Read _ _ _) as [[nodes0 [e|]] st]; [done|].
    destruct (NoDeleteFiles r); [done|]. by destruct (getFiles nodes0).
Qed.


End CoordinatorClaims.

(** ** Files of the root directory and the glob patterns *)

Section GlobFacts.
Context {K : Kioutil} {F : Filepath} {M : Type} {IM : IgnoreFilesMatcher M}.
Import LocalPackageReader.

Implicit Types (st : wstate (M:=M)) (r : t) (p root : path) (fs : filesystem).

(** A file of the root directory that no pattern matches: nothing is
    opened, nothing is appended. *)
Lemma root_file_unmatched r root fs name d st :
  (matchFile (ignoreFilesMatcher st) (Join root name)).1 = false →
  matchGlobs (MatchFilesGlob r) name = (false, None) →
  let res := walk (walkFn r root fs) (Join root name) (File d) st in
  res.1 = None
  ∧ pathRelativeTo res.2 = pathRelativeTo st
  ∧ operand res.2 = operand st
  ∧ opened (trace res.2) = opened (trace st)
  ∧ deref (maps res.2) (rSetAnnotations res.2) = deref (maps st) (rSetAnnotations st).
Proof.
  intros Hm Hg. cbn [walk]. unfold walkFn, skipOrRead. simpl.
  rewrite bool_decide_eq_false_2 by apply Join_ne.
  rewrite ShouldSkipFile_not_ignored by exact Hm.
  rewrite Base_Join, Hg. simpl. split_and!; try done.
  unfold opened. rewrite omap_app. simpl. by rewrite app_nil_r.
Qed.

(** A file of the root directory that a pattern matches and that
    decodes: it is opened, and its documents are appended, stamped with
    the receiver's annotations and with its name as path annotation. *)
Lemma root_file_matched r root fs name docs st rd es :
  resolve fs root = Ok (Dir rd es) →
  find_entry name es = Some (File (Ok docs)) →
  name ≠ ".." → name ≠ "." →
  pathRelativeTo st = root →
  (matchFile (ignoreFilesMatcher st) (Join root name)).1 = false →
  matchGlobs (MatchFilesGlob r) name = (true, None) →
  let extra :=
    if OmitReaderAnnotations r then deref (maps st) (rSetAnnotations st)
    else <[PathAnnotation := name]> (deref (maps st) (rSetAnnotations st)) in
  let res := walk (walkFn r root fs) (Join root name) (File (Ok docs)) st in
  res.1 = None
  ∧ pathRelativeTo res.2 = pathRelativeTo st
  ∧ operand res.2 = operand st ++ imap (stamp (OmitReaderAnnotations r) extra) docs
  ∧ opened (trace res.2) = opened (trace st) ++ [Join root name]
  ∧ deref (maps res.2) (rSetAnnotations res.2) = extra.
Proof.
  intros Hroot Hfind Hn1 Hn2 Hrel Hm Hg extra. cbn [walk].
  unfold walkFn, skipOrRead. simpl.
  rewrite bool_decide_eq_false_2 by apply Join_ne.
  rewrite ShouldSkipFile_not_ignored by exact Hm.
  rewrite Base_Join, Hg. simpl.
  set (st1 := asked (EvMatchFile (Join root name))
                (matchFile (ignoreFilesMatcher st) (Join root name)).2 st).
  pose proof (annotateAndRead_eq r fs (Join root name) st1) as Heq. simpl in Heq.
  rewrite Heq. clear Heq. rewrite Hrel, Rel_Join, JoinRel_name by done.
  change (show_rel [name]) with name. fold extra.
  unfold openAndDecode. rewrite (resolve_Join fs root rd es name Hroot), Hfind. simpl.
  destruct (initReaderAnnotations_frame r name st1) as (_ & Hp & Ho & Ht).
  pose proof (initReaderAnnotations_deref r name st1) as Hd. simpl in Hd.
  rewrite Hp, Ho, Ht, Hd. simpl. split_and!; try done.
  unfold opened. rewrite !omap_app. simpl. by rewrite app_nil_r.
Qed.

(** C8: with no pattern configured [Read] uses ["*.yaml"] and ["*.yml"];
    the patterns are matched against the base name of a file, whatever
    directory it is in; and so, on a platform whose [Match] behaves on
    these names as glob matching does and with nothing ignored, reading
    a directory that holds [a.yaml], [b.json] and [c.yml] opens [a.yaml]
    and [c.yml] and returns the documents of these two, in this order. *)
Theorem default_globs_read_yaml_and_yml_only r fs h root da db dc :
  PackagePath r ≠ "" →
  MatchFilesGlob r = [] →
  Abs (ToSlash (PackagePath r)) = Ok root →
  Lstat fs root = Ok (Dir None [("a.yaml", File (Ok da)); ("b.json", File (Ok db));
                                ("c.yml", File (Ok dc))]) →
  (readIgnoreFile newMatcher root).1 = None →
  (∀ m p, (matchFile m p).1 = false) →
  Match "*.yaml" "a.yaml" = Ok true →
  Match "*.yaml" "b.json" = Ok false →
  Match "*.yml" "b.json" = Ok false →
  Match "*.yaml" "c.yml" = Ok false →
  Match "*.yml" "c.yml" = Ok true →
  let extra (name : string) :=
    if OmitReaderAnnotations r then deref h (SetAnnotations r)
    else <[PathAnnotation := name]> (deref h (SetAnnotations r)) in
  Read (M:=M) r fs h = Read (M:=M) (with_MatchFilesGlob DefaultMatch r) fs h
  ∧ (∀ r' dir1 dir2 name st1 st2,
       (matchFile (ignoreFilesMatcher st1) (Join dir1 name)).1 = false →
       (matchFile (ignoreFilesMatcher st2) (Join dir2 name)).1 = false →
       (ShouldSkipFile r' (Join dir1 name) st1).1 = (ShouldSkipFile r' (Join dir2 name) st2).1)
  ∧ (Read (M:=M) r fs h).1 =
      (imap (stamp (OmitReaderAnnotations r) (extra "a.yaml")) da
       ++ imap (stamp (OmitReaderAnnotations r) (extra "c.yml")) dc, None)
  ∧ opened (trace (Read (M:=M) r fs h).2) = [Join root "a.yaml"; Join root "c.yml"].
Proof.
  intros Hpkg Hglobs Habs Hstat Hign Hfile Ha1 Hb1 Hb2 Hc1 Hc2 extra.
  assert (Hdef : defaulted r = with_MatchFilesGlob DefaultMatch r).
  { unfold defaulted. by rewrite Hglobs. }
  split; [|split].
  - unfold Read. simpl. rewrite Hdef. reflexivity.
  - intros r' dir1 dir2 name st1 st2 H1 H2.
    rewrite !ShouldSkipFile_not_ignored by done. simpl. by rewrite !Base_Join.
  - destruct (Read (M:=M) r fs h) as [[nodes err] st] eqn:HR. cbn [fst snd].
    unfold Read in HR. rewrite decide_False in HR by exact Hpkg.
    rewrite Habs, Hdef in HR.
    set (r' := with_MatchFilesGlob DefaultMatch r) in HR.
    unfold Walk in HR. rewrite Hstat in HR.
    pose proof (walk_Dir (walkFn r' root fs) root None
      [("a.yaml", File (Ok da)); ("b.json", File (Ok db)); ("c.yml", File (Ok dc))]
      (initial r' h)) as Hw.
    rewrite Hw in HR. clear Hw.
    unfold walkFn at 1 in HR. simpl from_option in HR.
    rewrite bool_decide_eq_true_2 in HR by done.
    unfold call_readIgnoreFile in HR. simpl ignoreFilesMatcher in HR.
    destruct (readIgnoreFile newMatcher root) as [e m1]. simpl in Hign. subst e.
    set (st0 := emit (EvReadIgnore root) (set_matcher m1 (set_pathRelativeTo root (initial r' h))))
      in HR.
    cbn [walkChildren] in HR.
    (* a.yaml matches the first pattern *)
    destruct (root_file_matched r' root fs "a.yaml" da st0 None _ Hstat eq_refl)
      as (Ea & Pa & Oa & Ta & Da); try done.
    { simpl. by rewrite Ha1. }
    destruct (walk (walkFn r' root fs) (Join root "a.yaml") (File (Ok da)) st0) as [ea sta].
    simpl in Ea, Pa, Oa, Ta, Da. subst ea.
    (* b.json matches none *)
    destruct (root_file_unmatched r' root fs "b.json" (Ok db) sta)
      as (Eb & Pb & Ob & Tb & Db); try done.
    { simpl. by rewrite Hb1, Hb2. }
    destruct (walk (walkFn r' root fs) (Join root "b.json") (File (Ok db)) sta) as [eb stb].
    simpl in Eb, Pb, Ob, Tb, Db. subst eb.
    (* c.yml matches the second pattern *)
    destruct (root_file_matched r' root fs "c.yml" dc stb None _ Hstat eq_refl)
      as (Ec & Pc & Oc & Tc & Dc); try done.
    { by rewrite Pb. }
    { simpl. by rewrite Hc1, Hc2. }
    destruct (walk (walkFn r' root fs) (Join root "c.yml") (File (Ok dc)) stb) as [ec stc].
    simpl in Ec, Pc, Oc, Tc, Dc. subst ec.
    cbn [fst snd bool_decide] in HR. simpl in HR. injection HR as <- <- <-. split.
    + rewrite Oc, Ob, Oa. simpl. f_equal. f_equal.
      rewrite Db, Da. unfold extra.
      destruct (OmitReaderAnnotations r); [done|]. by rewrite insert_insert_eq.
    + by rewrite Tc, Tb, Ta.
Qed.

End GlobFacts.

(** * The properties on the example packages *)

Section OnExamples.
Import Platform Examples.

(** ** The reader *)

(** C6 on [flat] with [a.yaml] excluded: the visit of [a.yaml] only asks
    the matcher, and the whole [Read] opens [c.yml] alone although
    [a.yaml] matches ["*.yaml"]. *)
Lemma ignored_file_is_never_opened_witness :
  (∃ st',
     LocalPackageReader.walk
       (LocalPackageReader.walkFn (IM:=excluding [["pkg"; "a.yaml"]] []) plain ["pkg"] flat)
       ["pkg"; "a.yaml"] (File (Ok [doc "a0"; doc "a1"])) inRoot = (None, st')
     ∧ LocalPackageReader.trace st'
         = LocalPackageReader.trace inRoot ++ [EvMatchFile ["pkg"; "a.yaml"]]
     ∧ LocalPackageReader.operand st' = LocalPackageReader.operand inRoot
     ∧ LocalPackageReader.maps st' = LocalPackageReader.maps inRoot
     ∧ LocalPackageReader.rSetAnnotations st' = LocalPackageReader.rSetAnnotations inRoot)
  ∧ opened (LocalPackageReader.trace
              (LocalPackageReader.Read (IM:=excluding [["pkg"; "a.yaml"]] []) plain flat ∅).2)
    = [["pkg"; "c.yml"]]
  ∧ Match "*.yaml" "a.yaml" = Ok true.
Proof.
  split; [|split; vm_compute; reflexivity].
  apply (ignored_file_is_never_opened (IM:=excluding [["pkg"; "a.yaml"]] [])
           plain ["pkg"] flat ["pkg"; "a.yaml"] (Ok [doc "a0"; doc "a1"]) inRoot).
  vm_compute. reflexivity.
Defined.

(** C3, as the claim states it, fails on [nested]: the directory [lib]
    has no marker file and is not excluded; the walk descends into it
    ([x.yaml] is opened) but [readIgnoreFile] is called for the root
    only. *)
Lemma unmarked_directory_ignore_file_not_loaded :
  Stat nested ["pkg"; "lib"; "Kptfile"] = Some ErrNotExist
  ∧ LocalPackageReader.trace (LocalPackageReader.Read (IM:=noIgnore) marked nested ∅).2
    = [EvReadIgnore ["pkg"]; EvMatchFile ["pkg"; "Kptfile"];
       EvMatchFile ["pkg"; "a.yaml"]; EvOpen ["pkg"; "a.yaml"];
       EvStat ["pkg"; "lib"; "Kptfile"]; EvMatchDir ["pkg"; "lib"];
       EvMatchFile ["pkg"; "lib"; "x.yaml"]; EvOpen ["pkg"; "lib"; "x.yaml"];
       EvStat ["pkg"; "sub"; "Kptfile"]]
  ∧ (EvReadIgnore ["pkg"; "lib"]
       ∉ LocalPackageReader.trace (LocalPackageReader.Read (IM:=noIgnore) marked nested ∅).2)
  ∧ LocalPackageReader.ignoreFilesMatcher
      (LocalPackageReader.Read (IM:=noIgnore) marked nested ∅).2 = [["pkg"]].
Proof.
  split_and!; try (vm_compute; reflexivity).
  apply (bool_decide_unpack _). vm_compute. exact I.
Defined.

(** C3, as amended, on [nested]: the walk of [lib] is the walk of its
    entries in the state that the [Stat] of the marker and the query of
    the matcher leave. *)
Lemma unmarked_directory_is_descended_witness :
  LocalPackageReader.walk
    (LocalPackageReader.walkFn (IM:=noIgnore) marked ["pkg"] nested)
    ["pkg"; "lib"] (Dir None [("x.yaml", File (Ok [doc "x0"]))]) inRoot
  = LocalPackageReader.walkChildren
      (LocalPackageReader.walkFn (IM:=noIgnore) marked ["pkg"] nested)
      ["pkg"; "lib"] [("x.yaml", File (Ok [doc "x0"]))]
      (LocalPackageReader.asked (EvMatchDir ["pkg"; "lib"])
         (matchDir (IgnoreFilesMatcher:=noIgnore)
            (LocalPackageReader.ignoreFilesMatcher inRoot) ["pkg"; "lib"]).2
         (LocalPackageReader.emit (EvStat ["pkg"; "lib"; "Kptfile"]) inRoot)).
Proof.
  apply (proj1 (unmarked_directory_is_descended_without_loading_its_ignore_file
                  (IM:=noIgnore) marked ["pkg"] nested ["pkg"; "lib"]
                  [("x.yaml", File (Ok [doc "x0"]))] inRoot
                  ltac:(done) ltac:(right; vm_compute; reflexivity) ltac:(reflexivity))).
Defined.

(** The package root is not put to that test: in [nested] it holds the
    marker file and sub-packages are not included, and the walk enters it
    and reads [a.yaml]. *)
Lemma root_with_marker_is_descended :
  Stat nested ["pkg"; "Kptfile"] = None
  ∧ LocalPackageReader.IncludeSubpackages marked = false
  ∧ opened (LocalPackageReader.trace
              (LocalPackageReader.Read (IM:=noIgnore) marked nested ∅).2)
    = [["pkg"; "a.yaml"]; ["pkg"; "lib"; "x.yaml"]]
  ∧ body <$> (LocalPackageReader.Read (IM:=noIgnore) marked nested ∅).1.1 = ["a0"; "x0"].
Proof. split_and!; vm_compute; reflexivity. Defined.

(** C4 on [nested]: the walk of the sub-package [sub] ends
    at once with [SkipDir], with the matcher excluding nothing or
    excluding everything below. *)
Lemma subpackage_is_not_descended_witness :
  LocalPackageReader.walk
    (LocalPackageReader.walkFn (IM:=excluding [["pkg"; "sub"; "y.yaml"]] [["pkg"; "sub"]])
       marked ["pkg"] nested)
    ["pkg"; "sub"]
    (Dir None [("Kptfile", File (Ok [doc "k"])); ("y.yaml", File (Ok [doc "y0"]))]) inRoot
  = (Some SkipDir, LocalPackageReader.emit (EvStat ["pkg"; "sub"; "Kptfile"]) inRoot).
Proof.
  apply (proj1 (subpackage_is_not_descended
                  (IM:=excluding [["pkg"; "sub"; "y.yaml"]] [["pkg"; "sub"]])
                  marked ["pkg"] nested ["pkg"; "sub"] None
                  [("Kptfile", File (Ok [doc "k"])); ("y.yaml", File (Ok [doc "y0"]))] inRoot
                  ltac:(done) ltac:(done) ltac:(reflexivity) ltac:(reflexivity))).
Defined.

(** C7 on [flat]: reading the file ["/pkg/a.yaml"] gives its two
    documents, annotated with the path ["a.yaml"]. *)
Lemma single_file_witness :
  (∀ n, n ∈ (LocalPackageReader.Read (IM:=noIgnore) single flat ∅).1.1 →
        annotations n !! PathAnnotation = Some "a.yaml")
  ∧ body <$> (LocalPackageReader.Read (IM:=noIgnore) single flat ∅).1.1 = ["a0"; "a1"].
Proof.
  split; [|vm_compute; reflexivity].
  apply (proj1 (single_file_is_annotated_with_its_base_name (IM:=noIgnore)
                  single flat ∅ ["pkg"; "a.yaml"] (Ok [doc "a0"; doc "a1"])
                  ltac:(done) ltac:(reflexivity) ltac:(reflexivity) ltac:(reflexivity)
                  ltac:(done))).
Defined.

(** C8 on [flat]: with no pattern configured, the documents of [a.yaml]
    and [c.yml] are returned and [b.json] is not opened. *)
Lemma default_globs_witness :
  body <$> (LocalPackageReader.Read (IM:=noIgnore) plain flat ∅).1.1 = ["a0"; "a1"; "c0"]
  ∧ opened (LocalPackageReader.trace (LocalPackageReader.Read (IM:=noIgnore) plain flat ∅).2)
    = [["pkg"; "a.yaml"]; ["pkg"; "c.yml"]].
Proof.
  destruct (default_globs_read_yaml_and_yml_only (IM:=noIgnore) plain flat ∅ ["pkg"]
              [doc "a0"; doc "a1"] [doc "b0"] [doc "c0"]
              ltac:(done) ltac:(reflexivity) ltac:(reflexivity) ltac:(reflexivity)
              ltac:(reflexivity) ltac:(reflexivity) ltac:(reflexivity) ltac:(reflexivity)
              ltac:(reflexivity) ltac:(reflexivity) ltac:(reflexivity))
    as (_ & _ & Hnodes & Hopened).
  split; [|exact Hopened].
  rewrite Hnodes. vm_compute. reflexivity.
Defined.

(** ** The coordinator *)

(** C1, as the claim states it, fails when the writer fails: the
    coordinator has read [flat], so the stored set is [a.yaml], [c.yml];
    [Write] is then given no document, the difference is the whole stored
    set, and nothing is deleted. *)
Lemma failed_write_deletes_nothing :
  LocalPackageReadWriter.files afterRead.1 = Some {[ "a.yaml"; "c.yml" ]}
  ∧ LocalPackageReadWriter.getFiles [] = Ok ∅
  ∧ elements (LocalPackageReadWriter.Difference (LocalPackageReadWriter.files afterRead.1) ∅)
    = ["c.yml"; "a.yaml"]
  ∧ LocalPackageReadWriter.Write afterRead.1 afterRead.2 writerFails []
    = (Some (Wrapped (ErrOS "disk full")), [WriterCalled "/pkg" [] false []])
  ∧ deleted (LocalPackageReadWriter.Write afterRead.1 afterRead.2 writerFails []).2 = [].
Proof. split_and!; vm_compute; reflexivity. Defined.

(** C1, as amended, on [flat]: a [Write] of no document that succeeds
    deletes exactly the two files that were read. *)
Lemma deleted_files_witness :
  ∃ new, LocalPackageReadWriter.getFiles [] = Ok new
    ∧ deleted (LocalPackageReadWriter.Write afterRead.1 afterRead.2 allOk []).2
      ≡ₚ elements (LocalPackageReadWriter.Difference
                     (LocalPackageReadWriter.files afterRead.1) new).
Proof.
  apply (proj1 (proj2 (deleted_files_are_within_the_difference (M:=list path) (IM:=noIgnore)))
           afterRead.1 afterRead.2 allOk []).
  vm_compute. reflexivity.
Defined.

(** C5, as the claim states it, fails when removals fail: two files are
    to be deleted, the removal of the first fails, and the second is not
    attempted. *)
Lemma second_removal_is_not_attempted :
  elements (LocalPackageReadWriter.Difference (LocalPackageReadWriter.files afterRead.1) ∅)
    = ["c.yml"; "a.yaml"]
  ∧ LocalPackageReadWriter.Write afterRead.1 afterRead.2 removeFails []
    = (Some (Wrapped (ErrOS "permission denied")),
       [WriterCalled "/pkg" [] false [];
        Remove "c.yml" "/pkg/c.yml" (Some (ErrOS "permission denied"))])
  ∧ attempted (LocalPackageReadWriter.Write afterRead.1 afterRead.2 removeFails []).2
    = ["c.yml"].
Proof. split_and!; vm_compute; reflexivity. Defined.

(** C5, as amended, on the same call. *)
Lemma delete_loop_witness :
  (LocalPackageReadWriter.Write afterRead.1 afterRead.2 removeFails []).1
    = Some (Wrapped (ErrOS "permission denied"))
  ∧ attempted (LocalPackageReadWriter.Write afterRead.1 afterRead.2 removeFails []).2
    = [] ++ ["c.yml"]
  ∧ deleted (LocalPackageReadWriter.Write afterRead.1 afterRead.2 removeFails []).2 = []
  ∧ ∀ g, g ∈ ["a.yaml"] →
         g ∉ attempted (LocalPackageReadWriter.Write afterRead.1 afterRead.2 removeFails []).2.
Proof.
  apply (proj2 (delete_loop_stops_at_the_first_failure
                  afterRead.1 afterRead.2 removeFails [] ∅
                  ltac:(reflexivity) ltac:(reflexivity))
           [] "c.yml" ["a.yaml"] (ErrOS "permission denied")).
  - vm_compute. reflexivity.
  - by intros g ?%elem_of_nil.
  - reflexivity.
Defined.

(** C9 on [flat]: the coordinator has [OmitReaderAnnotations] set, and
    the documents it reads carry the path annotation. *)
Lemma read_writer_witness :
  LocalPackageReadWriter.OmitReaderAnnotations coordinator = true
  ∧ ∃ nodes,
      (LocalPackageReadWriter.Read (IM:=noIgnore) coordinator flat ∅).1.1 = Ok nodes
      ∧ (∀ n, n ∈ nodes → is_Some (annotations n !! PathAnnotation))
      ∧ (λ n, annotations n !! PathAnnotation) <$> nodes
        = [Some "a.yaml"; Some "a.yaml"; Some "c.yml"].
Proof.
  split; [reflexivity|].
  exists (LocalPackageReader.Read (IM:=noIgnore) plain flat ∅).1.1.
  split; [vm_compute; reflexivity|]. split; [|vm_compute; reflexivity].
  apply (proj1 (read_writer_ignores_OmitReaderAnnotations (IM:=noIgnore)
                  coordinator flat ∅
                  (LocalPackageReader.Read (IM:=noIgnore) plain flat ∅).1.1
                  ltac:(reflexivity) ltac:(vm_compute; reflexivity))).
Defined.


End OnExamples.

(** * More of the coordinator *)

Section CoordinatorMore.
Context {K : Kioutil} {F : Filepath} {R : MapRange} {M : Type} {IM : IgnoreFilesMatcher M}.
Import LocalPackageReadWriter.

Implicit Types (r : t) (fs : filesystem) (h : heap) (env : WriteEnv).

Lemma pathsOf_cons n nodes :
  pathsOf (n :: nodes) =
    match GetFileAnnotations n with
    | Ok (p, _) => p :: pathsOf nodes
    | Fail _ => pathsOf nodes
    end.
Proof. unfold pathsOf. simpl. by destruct (GetFileAnnotations n) as [[p i]|e]. Qed.

Lemma getFiles_from_cases (acc : gset string) nodes :
  match getFiles_from acc nodes with
  | Ok val =>
      (∀ n, n ∈ nodes → ∃ p i, GetFileAnnotations n = Ok (p, i))
      ∧ ∀ f, f ∈ val ↔ f ∈ acc ∨ f ∈ pathsOf nodes
  | Fail e =>
      ∃ l1 n l2 e0,
        nodes = l1 ++ n :: l2
        ∧ (∀ m, m ∈ l1 → ∃ p i, GetFileAnnotations m = Ok (p, i))
        ∧ GetFileAnnotations n = Fail e0
        ∧ e = Wrapped e0
  end.
Proof.
  revert acc. induction nodes as [|n nodes IH]; intros acc.
  - simpl. split; [by intros n ?%elem_of_nil|].
    intros f. unfold pathsOf. simpl. rewrite elem_of_nil. naive_solver.
  - cbn [getFiles_from]. destruct (GetFileAnnotations n) as [[q i]|e0] eqn:Hn.
    + specialize (IH (acc ∪ {[q]})).
      destruct (getFiles_from (acc ∪ {[q]}) nodes) as [val|e].
      * destruct IH as [Hall Hval]. split.
        -- intros m [->|Hm]%elem_of_cons; [by eauto|by apply Hall].
        -- intros f. rewrite Hval, pathsOf_cons, Hn.
           rewrite elem_of_union, elem_of_singleton, elem_of_cons. naive_solver.
      * destruct IH as (l1 & m & l2 & e0 & -> & Hl1 & Hm & ->).
        exists (n :: l1), m, l2, e0. split_and!; try done.
        intros m' [->|Hm']%elem_of_cons; [by eauto|by apply Hl1].
    + exists [], n, nodes, e0. split_and!; try done. by intros m ?%elem_of_nil.
Qed.

(** X1: [getFiles] succeeds exactly when [GetFileAnnotations] succeeds on
    every document, and then returns the set of their paths (duplicates
    and order do not matter); when it fails, the error is that of the
    first document in the list on which [GetFileAnnotations] fails,
    wrapped. *)
Theorem getFiles_collects_paths_or_reports_first_failure nodes :
  match getFiles nodes with
  | Ok val =>
      (∀ n, n ∈ nodes → ∃ p i, GetFileAnnotations n = Ok (p, i))
      ∧ ∀ f, f ∈ val ↔ f ∈ pathsOf nodes
  | Fail e =>
      ∃ l1 n l2 e0,
        nodes = l1 ++ n :: l2
        ∧ (∀ m, m ∈ l1 → ∃ p i, GetFileAnnotations m = Ok (p, i))
        ∧ GetFileAnnotations n = Fail e0
        ∧ e = Wrapped e0
  end.
Proof.
  unfold getFiles. pose proof (getFiles_from_cases ∅ nodes) as H.
  destruct (getFiles_from ∅ nodes) as [val|e]; [|exact H].
  destruct H as [Hall Hval]. split; [exact Hall|].
  intros f. rewrite Hval. set_solver.
Qed.

(** The stored set stays [nil] as long as [NoDeleteFiles] is set. *)
Lemma run_no_tracking ops r h :
  NoDeleteFiles r = true → files r = None →
  ∀ f, f ∉ allAttempted (run (M:=M) ops (r, h)).1.
Proof.
  revert r h. induction ops as [|o ops IH]; intros r h Hno Hnil f.
  { simpl. apply not_elem_of_nil. }
  rewrite run_cons. cbn [fst snd]. unfold allAttempted. cbn [mbind list_bind].
  fold (allAttempted (run (M:=M) ops (step (M:=M) o (r, h)).2).1).
  destruct o as [fs|env nodes]; cbn [step fst snd].
  - assert (Hr : (Read (M:=M) r fs h).1.2 = r).
    { unfold Read. destruct (LocalPackageReader.Read _ _ _) as [[nodes [e|]] st]; [done|].
      by rewrite Hno. }
    destruct (Read (M:=M) r fs h) as [[res r'] st]. simpl in Hr. subst r'.
    cbn [fst snd app]. by apply IH.
  - destruct (Write r h env nodes) as [err evs] eqn:HW. cbn [fst snd].
    intros [Hf|Hf]%elem_of_app.
    + pose proof (Write_attempted r h env nodes f) as Ha. rewrite HW in Ha.
      destruct (Ha Hf) as (new & _ & Hin). unfold Difference in Hin.
      rewrite Hnil in Hin. set_solver.
    + by apply (IH r h Hno Hnil f).
Qed.

(** X2: [NoDeleteFiles] acts in [Read] only.  With the flag set, [Read]
    leaves the receiver as it is whatever it returns, so a coordinator
    that starts with no stored set and keeps the flag set never attempts
    a removal, over any sequence of reads and writes.  [Write] does not
    look at the flag: with a stored set it removes files all the same. *)
Theorem NoDeleteFiles_stops_recording_not_deleting r :
  NoDeleteFiles r = true →
  (∀ fs h, (Read (M:=M) r fs h).1.2 = r)
  ∧ (files r = None → ∀ ops h, allAttempted (run (M:=M) ops (r, h)).1 = [])
  ∧ (∀ h env nodes, Write r h env nodes = Write (with_NoDeleteFiles false r) h env nodes).
Proof.
  intros Hno. split_and!.
  - intros fs h. unfold Read.
    destruct (LocalPackageReader.Read _ _ _) as [[nodes [e|]] st]; [done|]. by rewrite Hno.
  - intros Hnil ops h. apply elem_of_nil_inv. intros f. by apply run_no_tracking.
  - reflexivity.
Qed.

(** X3: writing back what was read removes nothing.  After a successful
    [Read] with deletion tracking, a [Write] of documents whose paths
    cover those of the documents read (the same documents, reordered, or
    with more added) attempts no removal, and returns what the writer
    returns, wrapped. *)
Theorem write_back_removes_nothing r fs h nodes h' env nodes' new :
  NoDeleteFiles r = false →
  (Read (M:=M) r fs h).1.1 = Ok nodes →
  getFiles nodes' = Ok new →
  (∀ f, f ∈ pathsOf nodes → f ∈ new) →
  attempted (Write (Read (M:=M) r fs h).1.2 h' env nodes').2 = []
  ∧ (Write (Read (M:=M) r fs h).1.2 h' env nodes').1
    = Wrap (LocalPackageWriter_Write env (PackagePath r)
              (rangeOrder (dom (deref h' (SetAnnotations r))))
              (KeepReaderAnnotations r) nodes').
Proof.
  intros Hno HOk Hnew Hcover.
  destruct (Read_Ok r fs h nodes HOk) as [_ H]. rewrite Hno in H.
  destruct H as (val & Hval & ->).
  assert (Hdiff : val ∖ new = ∅).
  { apply set_eq. intros f.
    rewrite elem_of_difference, elem_of_empty.
    split; [|done]. intros [Hf Hn]. apply Hn, Hcover. by apply (getFiles_elem nodes val). }
  unfold Write, Difference. rewrite Hnew. simpl.
  destruct (LocalPackageWriter_Write _ _ _ _ _) as [e|]; [done|].
  rewrite Hdiff.
  assert (Hnil : rangeOrder ∅ = []).
  { apply Permutation_nil_r. rewrite rangeOrder_perm. by rewrite elements_empty. }
  rewrite Hnil. done.
Qed.

Lemma elem_of_pathsOf nodes f :
  f ∈ pathsOf nodes ↔ ∃ n i, n ∈ nodes ∧ GetFileAnnotations n = Ok (f, i).
Proof.
  unfold pathsOf. rewrite list_elem_of_omap. split.
  - intros (n & Hn & H). destruct (GetFileAnnotations n) as [[p i]|e] eqn:Hg; [|done].
    injection H as ->. by exists n, i.
  - intros (n & i & Hn & H). exists n. by rewrite H.
Qed.

(** The paths of the documents that are left when those of the file [f]
    are taken out. *)
Lemma getFiles_without nodes val f0 :
  getFiles nodes = Ok val →
  ∃ new, getFiles (filter (λ n, pathIs f0 n = false) nodes) = Ok new
         ∧ ∀ f, f ∈ new ↔ f ∈ val ∧ f ≠ f0.
Proof.
  intros Hval.
  pose proof (getFiles_from_cases ∅ nodes) as Hall. fold (getFiles nodes) in Hall.
  rewrite Hval in Hall. destruct Hall as [Hall _].
  pose proof (getFiles_from_cases ∅ (filter (λ n, pathIs f0 n = false) nodes)) as H.
  fold (getFiles (filter (λ n, pathIs f0 n = false) nodes)) in H.
  destruct (getFiles (filter (λ n, pathIs f0 n = false) nodes)) as [new|e].
  - exists new. split; [done|]. destruct H as [_ Hnew]. intros f.
    rewrite Hnew, (getFiles_elem nodes val f Hval), !elem_of_pathsOf.
    split.
    + intros [?%elem_of_empty | (n & i & [Hp Hn]%list_elem_of_filter & Hg)]; [done|].
      split; [by exists n, i|]. unfold pathIs in Hp. rewrite Hg in Hp.
      by apply bool_decide_eq_false_1 in Hp.
    + intros [(n & i & Hn & Hg) Hne]. right. exists n, i. split; [|done].
      apply list_elem_of_filter. split; [|done]. unfold pathIs. rewrite Hg.
      by apply bool_decide_eq_false_2.
  - destruct H as (l1 & n & l2 & e0 & Hl & _ & Hn & _).
    assert (Hin : n ∈ filter (λ n, pathIs f0 n = false) nodes).
    { rewrite Hl. apply elem_of_app. right. apply list_elem_of_here. }
    apply list_elem_of_filter in Hin as [_ Hin].
    destruct (Hall n Hin) as (p & i & Hok). by rewrite Hok in Hn.
Qed.

(** X4: taking the documents of one file out of what was read makes
    [Write] remove that file and no other.  After a successful [Read]
    with deletion tracking, when [Write] is given the documents read
    without those whose path is [f0] and the writer succeeds, the removal
    of [f0] is the only one attempted; [Write] returns what [os.Remove]
    returns, wrapped. *)
Theorem dropping_a_file_removes_that_file_only r fs h nodes f0 h' env :
  NoDeleteFiles r = false →
  (Read (M:=M) r fs h).1.1 = Ok nodes →
  f0 ∈ pathsOf nodes →
  LocalPackageWriter_Write env (PackagePath r)
    (rangeOrder (dom (deref h' (SetAnnotations r)))) (KeepReaderAnnotations r)
    (filter (λ n, pathIs f0 n = false) nodes) = None →
  attempted (Write (Read (M:=M) r fs h).1.2 h' env
               (filter (λ n, pathIs f0 n = false) nodes)).2 = [f0]
  ∧ (Write (Read (M:=M) r fs h).1.2 h' env
       (filter (λ n, pathIs f0 n = false) nodes)).1
    = Wrap (os_Remove env (JoinStr (PackagePath r) f0))
  ∧ deleted (Write (Read (M:=M) r fs h).1.2 h' env
               (filter (λ n, pathIs f0 n = false) nodes)).2
    = match os_Remove env (JoinStr (PackagePath r) f0) with
      | None => [f0]
      | Some _ => []
      end.
Proof.
  intros Hno HOk Hf0 Hw.
  destruct (Read_Ok r fs h nodes HOk) as [_ H]. rewrite Hno in H.
  destruct H as (val & Hval & ->).
  destruct (getFiles_without nodes val f0 Hval) as (new & Hnew & Hin).
  assert (Hdiff : val ∖ new = {[f0]}).
  { apply set_eq. intros f. rewrite elem_of_difference, elem_of_singleton, Hin.
    split.
    - intros [Hf Hn]. destruct (decide (f = f0)); [done|]. by destruct Hn.
    - intros ->. split; [by apply (getFiles_elem nodes val)|]. by intros [_ ?]. }
  assert (Hone : rangeOrder {[f0]} = [f0]).
  { apply Permutation_singleton_r. rewrite rangeOrder_perm. by rewrite elements_singleton. }
  unfold Write, Difference. rewrite Hnew. simpl. rewrite Hw, Hdiff, Hone. simpl.
  by destruct (os_Remove env (JoinStr (PackagePath r) f0)).
Qed.

(** X5: the shape of a [Write].  When [getFiles] fails on the documents
    nothing is done: the writer is not called and no file is removed.
    Otherwise the writer is called exactly once, first, with the
    documents as given and with a list of annotations to clear that
    enumerates the keys of [SetAnnotations]; when the writer fails no
    removal is attempted. *)
Theorem Write_calls_the_writer_once_and_first r h env nodes :
  match getFiles nodes with
  | Fail e => Write r h env nodes = (Some (Wrapped e), [])
  | Ok new =>
      ∃ clear rest,
        (Write r h env nodes).2
          = WriterCalled (PackagePath r) clear (KeepReaderAnnotations r) nodes :: rest
        ∧ clear ≡ₚ elements (dom (deref h (SetAnnotations r)))
        ∧ cleared rest = []
        ∧ ∀ e, LocalPackageWriter_Write env (PackagePath r) clear
                 (KeepReaderAnnotations r) nodes = Some e →
               (Write r h env nodes).1 = Some (Wrapped e) ∧ rest = []
  end.
Proof.
  unfold Write. destruct (getFiles nodes) as [new|e]; [|done].
  exists (rangeOrder (dom (deref h (SetAnnotations r)))).
  destruct (LocalPackageWriter_Write _ _ _ _ _) as [e|] eqn:Hw.
  - exists []. split_and!; [done|apply rangeOrder_perm|done|]. by intros e' [= <-].
  - pose proof (removeFiles_cleared env (PackagePath r)
                  (rangeOrder (Difference (files r) new))) as Hc.
    destruct (removeFiles _ _ _) as [err evs]. simpl in Hc.
    exists evs. split_and!; [done|apply rangeOrder_perm|done|done].
Qed.

(** X16: a coordinator whose [SetAnnotations] is [nil] never asks the
    writer to clear an annotation.  The map that the reader makes for the
    path annotation belongs to the reader's copy: the coordinator's field
    stays [nil] over any sequence of reads and writes, and every [Write]
    hands the writer an empty list. *)
Theorem nil_SetAnnotations_clears_nothing r ops h c :
  SetAnnotations r = None →
  c ∈ allCleared (run (M:=M) ops (r, h)).1 → c = [].
Proof.
  revert r h. induction ops as [|o ops IH]; intros r h Hnil.
  { simpl. by intros ?%elem_of_nil. }
  rewrite run_cons. cbn [fst snd]. unfold allCleared. cbn [mbind list_bind].
  fold (allCleared (run (M:=M) ops (step (M:=M) o (r, h)).2).1).
  destruct o as [fs|env nodes]; cbn [step fst snd].
  - destruct (Read (M:=M) r fs h) as [[res r'] st] eqn:HR. cbn [fst snd app].
    apply IH.
    destruct (Read_receiver r fs h) as [Hr | [fl Hr]]; rewrite HR in Hr; simpl in Hr;
      by subst r'.
  - destruct (Write r h env nodes) as [err0 evs0] eqn:HW. cbn [fst snd].
    intros [Hc|Hc]%elem_of_app; [|by apply (IH r h)].
    assert (Hempty : rangeOrder (dom (deref h (SetAnnotations r))) = []).
    { rewrite Hnil. simpl. apply Permutation_nil_r.
      rewrite rangeOrder_perm, dom_empty_L. by rewrite elements_empty. }
    unfold Write in HW. rewrite Hempty in HW.
    destruct (getFiles nodes) as [new|e].
    + destruct (LocalPackageWriter_Write _ _ _ _ _).
      * injection HW as _ <-. unfold cleared in Hc. simpl in Hc.
        by apply list_elem_of_singleton in Hc.
      * pose proof (removeFiles_cleared env (PackagePath r)
                      (rangeOrder (Difference (files r) new))) as Hcl.
        destruct (removeFiles _ _ _) as [err evs]. simpl in Hcl.
        injection HW as _ <-. change (c ∈ [] :: cleared evs) in Hc. rewrite Hcl in Hc.
        by apply list_elem_of_singleton in Hc.
    + injection HW as _ <-. by apply elem_of_nil in Hc.
Qed.

End CoordinatorMore.

(** * A failed [Read] and the stored file set *)

Section CoordinatorRead.
Context {K : Kioutil} {F : Filepath} {R : MapRange} {M : Type} {IM : IgnoreFilesMatcher M}.
Import LocalPackageReadWriter.

Implicit Types (r : t) (fs : filesystem) (h : heap).



End CoordinatorRead.

(** * More of the reader *)

Section WalkMore.
Context {K : Kioutil} {F : Filepath} {M : Type} {IM : IgnoreFilesMatcher M}.
Import LocalPackageReader.

Implicit Types (st : wstate (M:=M)) (r : t) (p root : path) (fs : filesystem).
Implicit Types fn : path → option fsnode → option error → Walker (M:=M) (option error).

Lemma after_same (A : wstate (M:=M) → Prop) res : after A A res → A res.2.
Proof. unfold after. by destruct res as [[[]|] st]. Qed.

Lemma after_nil (A B : wstate (M:=M) → Prop) res : after A B res → res.1 = None → A res.2.
Proof. unfold after. by destruct res as [[[]|] st]. Qed.

(** A walk over the entries of a directory, when what is known of the
    calls of the walk function on the paths [Q] is known of the walks of
    the entries. *)
Lemma walkChildren_after (Q : path → Prop) (A B : wstate (M:=M) → Prop) fn p es :
  (∀ q name, Q q → Q (Join q name)) →
  (∀ q info err st, Q q → A st → after A B (fn q info err st)) →
  Forall (λ x, ∀ q st, Q q → A st → after A B (walk fn q x.2 st)) es →
  Q p → ∀ st, A st → after A B (walkChildren fn p es st).
Proof.
  intros HQ Hfn Hes Hp.
  induction Hes as [|[name child] es Hc _ IH]; intros st HA; [exact HA|].
  simpl in Hc. cbn [walkChildren].
  assert (Hq : Q (Join p name)) by by apply HQ.
  destruct child as [d|rd' es'|e].
  - pose proof (Hc (Join p name) st Hq HA) as H.
    destruct (walk fn (Join p name) (File d) st) as [[e'|] st']; [exact H|].
    apply IH. exact H.
  - pose proof (Hc (Join p name) st Hq HA) as H.
    destruct (walk fn (Join p name) (Dir rd' es') st) as [[e'|] st'].
    + simpl. destruct (bool_decide (e' = SkipDir)) eqn:He; simpl; [|exact H].
      apply bool_decide_eq_true_1 in He. subst e'. apply IH. exact H.
    + apply IH. exact H.
  - pose proof (Hfn (Join p name) None (Some e) st Hq HA) as H.
    destruct (fn (Join p name) None (Some e) st) as [[e'|] st'].
    + destruct (bool_decide (e' = SkipDir)) eqn:He; [|exact H].
      apply bool_decide_eq_true_1 in He. subst e'. apply IH. exact H.
    + apply IH. exact H.
Qed.

Lemma walk_after (Q : path → Prop) (A B : wstate (M:=M) → Prop) fn :
  (∀ q name, Q q → Q (Join q name)) →
  (∀ q info err st, Q q → A st → after A B (fn q info err st)) →
  ∀ n p st, Q p → A st → after A B (walk fn p n st).
Proof.
  intros HQ Hfn n. induction n as [d|e|rd es IH] using fsnode_induction; intros p st Hp HA.
  - by apply Hfn.
  - by apply Hfn.
  - pose proof (walk_Dir fn p rd es st) as ->.
    pose proof (Hfn p (Some (Dir rd es)) rd st Hp HA) as H1.
    destruct (fn p (Some (Dir rd es)) rd st) as [err1 st1].
    destruct rd, err1; try exact H1.
    by apply (walkChildren_after Q).
Qed.

Lemma Walk_after (A B : wstate (M:=M) → Prop) fn fs root st :
  (∀ q info err st, A st → after A B (fn q info err st)) →
  A st → after A B (Walk fn fs root st).
Proof.
  intros Hfn HA. unfold Walk.
  assert (H : after A B match Lstat fs root with
                        | Ok info => walk fn root info st
                        | Fail e => fn root None (Some e) st
                        end).
  { destruct (Lstat fs root) as [info|e].
    - by apply (walk_after (λ _, True)); auto.
    - by apply Hfn. }
  destruct (match Lstat fs root with Ok _ => _ | Fail _ => _ end) as [err st'].
  unfold after in *. simpl in *.
  destruct err as [[]|]; simpl; done.
Qed.

End WalkMore.

Section ReaderMore.
Context {K : Kioutil} {F : Filepath} {M : Type} {IM : IgnoreFilesMatcher M}.
Import LocalPackageReader.

Implicit Types (st : wstate (M:=M)) (r : t) (p root : path) (fs : filesystem).

(** X15: the loop of [ShouldSkipFile] over the patterns stops at the
    first pattern that matches or is malformed.  A file is accepted when
    some pattern matches its base name and every pattern before it was
    evaluated and did not match; it is rejected without error when no
    pattern matches; an error is the wrapped error of [filepath.Match] on
    the first pattern that is not well formed, and is reported only when
    no pattern before it matched. *)
Theorem patterns_are_tried_in_order_until_one_matches (globs : list string) (base : string) :
  match matchGlobs globs base with
  | (true, None) =>
      ∃ l1 g l2, globs = l1 ++ g :: l2 ∧ Match g base = Ok true
                 ∧ ∀ g', g' ∈ l1 → Match g' base = Ok false
  | (false, None) => ∀ g, g ∈ globs → Match g base = Ok false
  | (false, Some e) =>
      ∃ l1 g l2 e0, globs = l1 ++ g :: l2 ∧ Match g base = Fail e0 ∧ e = Wrapped e0
                    ∧ ∀ g', g' ∈ l1 → Match g' base = Ok false
  | (true, Some _) => False
  end.
Proof.
  induction globs as [|g globs IH]; simpl.
  - by intros g ?%elem_of_nil.
  - destruct (Match g base) as [[|]|e0] eqn:Hg.
    + exists [], g, globs. split_and!; try done. by intros g' ?%elem_of_nil.
    + destruct (matchGlobs globs base) as [[|] [e|]]; try done.
      * destruct IH as (l1 & g1 & l2 & -> & H1 & Hl1).
        exists (g :: l1), g1, l2. split_and!; try done.
        intros g' [->|?]%elem_of_cons; auto.
      * destruct IH as (l1 & g1 & l2 & e0 & -> & H1 & -> & Hl1).
        exists (g :: l1), g1, l2, e0. split_and!; try done.
        intros g' [->|?]%elem_of_cons; auto.
      * intros g' [->|?]%elem_of_cons; auto.
    + exists [], g, globs, e0. split_and!; try done. by intros g' ?%elem_of_nil.
Qed.

(** X6: the ways in which [Read] fails before any file or directory is
    looked at.  An empty package path, a failure of [filepath.Abs], a
    root that [Lstat] does not find and a root directory whose entries
    cannot be read all give no document and an error (wrapped, but for
    the first), without a call to the ignore matcher and without a write
    to the store of maps. *)
Theorem Read_fails_before_anything_is_visited r fs h :
  (PackagePath r = "" →
     (Read (M:=M) r fs h).1 = ([], Some (ErrMsg "must specify package path"))
     ∧ trace (Read (M:=M) r fs h).2 = [] ∧ maps (Read (M:=M) r fs h).2 = h)
  ∧ (∀ e, PackagePath r ≠ "" → Abs (ToSlash (PackagePath r)) = Fail e →
       (Read (M:=M) r fs h).1 = ([], Some (Wrapped e))
       ∧ trace (Read (M:=M) r fs h).2 = [] ∧ maps (Read (M:=M) r fs h).2 = h)
  ∧ (∀ root e, PackagePath r ≠ "" → Abs (ToSlash (PackagePath r)) = Ok root →
       Lstat fs root = Fail e →
       (Read (M:=M) r fs h).1 = ([], Some (Wrapped e))
       ∧ trace (Read (M:=M) r fs h).2 = [] ∧ maps (Read (M:=M) r fs h).2 = h)
  ∧ (∀ root e es, PackagePath r ≠ "" → Abs (ToSlash (PackagePath r)) = Ok root →
       Lstat fs root = Ok (Dir (Some e) es) →
       (Read (M:=M) r fs h).1 = ([], Some (Wrapped e))
       ∧ trace (Read (M:=M) r fs h).2 = [] ∧ maps (Read (M:=M) r fs h).2 = h).
Proof.
  split_and!.
  - intros Hp. unfold Read. by rewrite decide_True.
  - intros e Hp Ha. unfold Read. rewrite decide_False by done. by rewrite Ha.
  - intros root e Hp Ha Hl. unfold Read. rewrite decide_False by done.
    rewrite Ha. unfold Walk. rewrite Hl. done.
  - intros root e es Hp Ha Hl. unfold Read. rewrite decide_False by done.
    rewrite Ha. unfold Walk. rewrite Hl.
    pose proof (walk_Dir (walkFn (defaulted r) root fs) root (Some e) es
                  (initial (defaulted r) h)) as ->.
    done.
Qed.

(** X7: when the ignore file of the root directory cannot be loaded the
    walk ends there.  [Read] returns no document and the error of
    [readIgnoreFile] as it is, not wrapped; as [filepath.Walk] takes
    [SkipDir] for a request to skip, that error gives no document and no
    error.  Nothing but the root's ignore file was looked at. *)
Theorem root_ignore_file_error_ends_the_read r fs h root es e :
  PackagePath r ≠ "" →
  Abs (ToSlash (PackagePath r)) = Ok root →
  Lstat fs root = Ok (Dir None es) →
  (readIgnoreFile newMatcher root).1 = Some e →
  (Read (M:=M) r fs h).1 = ([], if bool_decide (e = SkipDir) then None else Some e)
  ∧ trace (Read (M:=M) r fs h).2 = [EvReadIgnore root]
  ∧ maps (Read (M:=M) r fs h).2 = h.
Proof.
  intros Hp Ha Hl He. unfold Read. rewrite decide_False by done.
  rewrite Ha. unfold Walk. rewrite Hl.
  pose proof (walk_Dir (walkFn (defaulted r) root fs) root None es
                (initial (defaulted r) h)) as ->.
  unfold walkFn. simpl from_option. rewrite bool_decide_eq_true_2 by done.
  unfold call_readIgnoreFile. simpl ignoreFilesMatcher.
  destruct (readIgnoreFile newMatcher root) as [e' m]. simpl in He. subst e'.
  simpl. destruct (decide (e = SkipDir)) as [->|Hne].
  - done.
  - rewrite !bool_decide_eq_false_2; [done|done|]. by intros [= ->].
Qed.

(** X8: a directory other than the root that has no marker file (or when
    no marker is configured) and that the ignore matcher excludes is
    skipped: its walk ends with [SkipDir] after the query of the matcher,
    none of its entries is visited, and the walk of the parent goes on
    with the next entry. *)
Theorem excluded_directory_is_skipped r root fs p es st :
  p ≠ root →
  PackageFileName r = "" ∨ Stat fs (Join p (PackageFileName r)) = Some ErrNotExist →
  (matchDir (ignoreFilesMatcher st) p).1 = true →
  walk (walkFn r root fs) p (Dir None es) st =
    (Some SkipDir,
     asked (EvMatchDir p) (matchDir (ignoreFilesMatcher st) p).2
       (if decide (PackageFileName r = "") then st
        else emit (EvStat (Join p (PackageFileName r))) st))
  ∧ ∀ q name rest,
      p = Join q name →
      walkChildren (walkFn r root fs) q ((name, Dir None es) :: rest) st =
      walkChildren (walkFn r root fs) q rest
        (asked (EvMatchDir p) (matchDir (ignoreFilesMatcher st) p).2
           (if decide (PackageFileName r = "") then st
            else emit (EvStat (Join p (PackageFileName r))) st)).
Proof.
  intros Hroot Hmark Hdir.
  assert (Hw : walk (walkFn r root fs) p (Dir None es) st =
    (Some SkipDir,
     asked (EvMatchDir p) (matchDir (ignoreFilesMatcher st) p).2
       (if decide (PackageFileName r = "") then st
        else emit (EvStat (Join p (PackageFileName r))) st))).
  { pose proof (walk_Dir (walkFn r root fs) p None es st) as ->.
    unfold walkFn, skipOrRead, ShouldSkipDir, call_matchDir, asked. simpl.
    rewrite bool_decide_eq_false_2 by exact Hroot.
    destruct (decide (PackageFileName r = "")) as [Hn|Hn].
    - destruct (matchDir _ _) as [b m]. simpl in *. subst b. reflexivity.
    - destruct Hmark as [?|Hst]; [done|]. rewrite Hst. simpl.
      destruct (matchDir _ _) as [b m]. simpl in *. subst b. reflexivity. }
  split; [exact Hw|].
  intros q name rest ->. cbn [walkChildren]. rewrite Hw. reflexivity.
Qed.

(** X9: a directory other than the root that holds the marker file, when
    sub-packages are included, has its own ignore file loaded and is
    entered if that succeeds; the ignore matcher is not asked whether the
    directory is excluded, so the rules of the enclosing package cannot
    make the walk skip a sub-package. *)
Theorem included_subpackage_is_entered_without_asking_the_matcher r root fs p es st :
  p ≠ root →
  PackageFileName r ≠ "" →
  Stat fs (Join p (PackageFileName r)) = None →
  IncludeSubpackages r = true →
  walk (walkFn r root fs) p (Dir None es) st =
    match (readIgnoreFile (ignoreFilesMatcher st) p).1 with
    | None =>
        walkChildren (walkFn r root fs) p es
          (asked (EvReadIgnore p) (readIgnoreFile (ignoreFilesMatcher st) p).2
             (emit (EvStat (Join p (PackageFileName r))) st))
    | Some e =>
        (Some e,
         asked (EvReadIgnore p) (readIgnoreFile (ignoreFilesMatcher st) p).2
           (emit (EvStat (Join p (PackageFileName r))) st))
    end.
Proof.
  intros Hroot Hname Hstat Hinc.
  pose proof (walk_Dir (walkFn r root fs) p None es st) as ->.
  unfold walkFn, skipOrRead, ShouldSkipDir, call_readIgnoreFile, asked. simpl.
  rewrite bool_decide_eq_false_2 by exact Hroot.
  destruct (decide (PackageFileName r = "")) as [?|_]; [done|].
  rewrite Hstat, Hinc. simpl.
  by destruct (readIgnoreFile _ _) as [[e|] m].
Qed.

(** X10: when the [Stat] of the marker file in a directory other than the
    root fails for another reason than the file not being there, the
    walk ends with that error, wrapped: the ignore matcher is not asked,
    no entry of the directory is visited, and the entries that follow it
    in its parent are not visited either. *)
Theorem marker_Stat_error_ends_the_walk r root fs p es st e :
  p ≠ root →
  PackageFileName r ≠ "" →
  Stat fs (Join p (PackageFileName r)) = Some e →
  IsNotExist (Some e) = false →
  walk (walkFn r root fs) p (Dir None es) st =
    (Some (Wrapped e), emit (EvStat (Join p (PackageFileName r))) st)
  ∧ ∀ q name rest,
      p = Join q name →
      walkChildren (walkFn r root fs) q ((name, Dir None es) :: rest) st =
        (Some (Wrapped e), emit (EvStat (Join p (PackageFileName r))) st).
Proof.
  intros Hroot Hname Hstat Hne.
  assert (Hw : walk (walkFn r root fs) p (Dir None es) st =
    (Some (Wrapped e), emit (EvStat (Join p (PackageFileName r))) st)).
  { pose proof (walk_Dir (walkFn r root fs) p None es st) as ->.
    unfold walkFn, skipOrRead, ShouldSkipDir. simpl.
    rewrite bool_decide_eq_false_2 by exact Hroot.
    destruct (decide (PackageFileName r = "")) as [?|_]; [done|].
    rewrite Hstat, Hne. reflexivity. }
  split; [exact Hw|].
  intros q name rest ->. cbn [walkChildren]. rewrite Hw. reflexivity.
Qed.

End ReaderMore.

Section ReadMore.
Context {K : Kioutil} {F : Filepath} {M : Type} {IM : IgnoreFilesMatcher M}.
Import LocalPackageReader.

Implicit Types (st : wstate (M:=M)) (r : t) (p root : path) (fs : filesystem).

(** What [annotateAndRead] returns and leaves, by the outcome of opening
    and decoding the file. *)
Lemma annotateAndRead_cases r fs p st :
  let rel := Rel (pathRelativeTo st) p in
  let target := JoinRel (pathRelativeTo st) rel in
  let extra := if OmitReaderAnnotations r then deref (maps st) (rSetAnnotations st)
               else <[PathAnnotation := show_rel rel]> (deref (maps st) (rSetAnnotations st)) in
  let res := annotateAndRead r fs p st in
  pathRelativeTo res.2 = pathRelativeTo st
  ∧ opened (trace res.2) = opened (trace st) ++ [target]
  ∧ maps res.2 = maps (initReaderAnnotations r (show_rel rel) st)
  ∧ rSetAnnotations res.2 = rSetAnnotations (initReaderAnnotations r (show_rel rel) st)
  ∧ ((∃ e, openAndDecode fs target = Fail e
           ∧ res.1 = Some (WrapPrefix e (show_abs target))
           ∧ operand res.2 = operand st)
     ∨ (∃ docs, openAndDecode fs target = Ok docs
                ∧ res.1 = None
                ∧ operand res.2
                  = operand st ++ imap (stamp (OmitReaderAnnotations r) extra) docs)).
Proof.
  intros rel target extra res. unfold res.
  pose proof (annotateAndRead_eq r fs p st) as Heq. simpl in Heq. rewrite Heq. clear Heq.
  fold rel target extra.
  destruct (initReaderAnnotations_frame r (show_rel rel) st) as (_ & Hp & Ho & Ht).
  destruct (openAndDecode fs target) as [docs|e]; simpl; rewrite Hp, Ho, Ht;
    unfold opened; rewrite omap_app; simpl; (split_and!; [done..|]).
  - right. by exists docs.
  - left. by exists e.
Qed.

(** Every call of the walk function either reads no file, or is
    [annotateAndRead] on the path it is called with. *)
Lemma walkFn_reads_or_not r root fs p info err st :
  (maps (walkFn r root fs p info err st).2 = maps st
   ∧ rSetAnnotations (walkFn r root fs p info err st).2 = rSetAnnotations st
   ∧ operand (walkFn r root fs p info err st).2 = operand st
   ∧ opened (trace (walkFn r root fs p info err st).2) = opened (trace st)
   ∧ (p ≠ root → pathRelativeTo (walkFn r root fs p info err st).2 = pathRelativeTo st))
  ∨ ∃ st0,
      maps st0 = maps st ∧ rSetAnnotations st0 = rSetAnnotations st
      ∧ operand st0 = operand st ∧ opened (trace st0) = opened (trace st)
      ∧ (p ≠ root → pathRelativeTo st0 = pathRelativeTo st)
      ∧ walkFn r root fs p info err st = annotateAndRead r fs p st0.
Proof.
  unfold walkFn. destruct err as [e|]; [by left|].
  assert (Hskip : ∀ st0,
    maps st0 = maps st → rSetAnnotations st0 = rSetAnnotations st →
    operand st0 = operand st → trace st0 = trace st →
    (p ≠ root → pathRelativeTo st0 = pathRelativeTo st) →
    (maps (skipOrRead r fs p (from_option IsDir false info) st0).2 = maps st
     ∧ rSetAnnotations (skipOrRead r fs p (from_option IsDir false info) st0).2
       = rSetAnnotations st
     ∧ operand (skipOrRead r fs p (from_option IsDir false info) st0).2 = operand st
     ∧ opened (trace (skipOrRead r fs p (from_option IsDir false info) st0).2)
       = opened (trace st)
     ∧ (p ≠ root →
        pathRelativeTo (skipOrRead r fs p (from_option IsDir false info) st0).2
        = pathRelativeTo st))
    ∨ ∃ st1,
        maps st1 = maps st ∧ rSetAnnotations st1 = rSetAnnotations st
        ∧ operand st1 = operand st ∧ opened (trace st1) = opened (trace st)
        ∧ (p ≠ root → pathRelativeTo st1 = pathRelativeTo st)
        ∧ skipOrRead r fs p (from_option IsDir false info) st0 = annotateAndRead r fs p st1).
  { intros st0 Hm Hl Ho Ht Hrel. unfold skipOrRead.
    destruct (from_option IsDir false info).
    - left. unfold ShouldSkipDir, call_matchDir, call_readIgnoreFile.
      destruct (decide (PackageFileName r = "")).
      + destruct (matchDir _ _) as [b m]. simpl.
        rewrite Ht. unfold opened. rewrite omap_app. simpl. by rewrite app_nil_r.
      + destruct (IsNotExist _).
        * destruct (matchDir _ _) as [b m]. simpl.
          rewrite Ht. unfold opened. rewrite !omap_app. simpl. by rewrite !app_nil_r.
        * destruct (Stat _ _); simpl.
          -- rewrite Ht. unfold opened. rewrite !omap_app. simpl. by rewrite !app_nil_r.
          -- destruct (IncludeSubpackages r); simpl.
             ++ destruct (readIgnoreFile _ _) as [b m]. simpl.
                rewrite Ht. unfold opened. rewrite !omap_app. simpl. by rewrite !app_nil_r.
             ++ rewrite Ht. unfold opened. rewrite !omap_app. simpl. by rewrite !app_nil_r.
    - unfold ShouldSkipFile, call_matchFile.
      destruct (matchFile _ _) as [b m].
      assert (Hop : opened (trace st0 ++ [EvMatchFile p]) = opened (trace st)).
      { rewrite Ht. unfold opened. rewrite omap_app. simpl. by rewrite app_nil_r. }
      destruct b; simpl; [by left|].
      destruct (matchGlobs _ _) as [[|] [e|]]; simpl; try by left.
      right. eexists. split_and!; [..|reflexivity]; simpl; done. }
  destruct (bool_decide (p = root)) eqn:Hp.
  - apply bool_decide_eq_true_1 in Hp.
    destruct (from_option IsDir false info) eqn:Hd.
    + left. unfold call_readIgnoreFile. simpl.
      destruct (readIgnoreFile _ _) as [e m]. simpl.
      unfold opened. rewrite omap_app. simpl. by rewrite app_nil_r.
    + apply (Hskip (set_pathRelativeTo (Dir_ root) st)); done.
  - apply Hskip; done.
Qed.

(** What a whole [Read] establishes: a property of the initial state
    that the calls of the walk function keep as long as the walk goes
    on holds at the end when [Read] returns no error. *)
Lemma Read_after (A B : wstate (M:=M) → Prop) r fs h :
  A (initial r h) →
  (∀ root p info err st, A st → after A B (walkFn (defaulted r) root fs p info err st)) →
  (Read (M:=M) r fs h).1.2 = None → A (Read (M:=M) r fs h).2.
Proof.
  intros H0 Hfn. unfold Read.
  assert (Hi : initial (defaulted r) h = initial r h).
  { unfold initial. by destruct (defaulted_fields r) as (_ & -> & _). }
  destruct (decide (PackagePath r = "")); [done|].
  destruct (Abs _) as [root|e]; [|done].
  pose proof (Walk_after A B (walkFn (defaulted r) root fs) fs root (initial (defaulted r) h)
                (Hfn root)) as HW.
  rewrite Hi in *. specialize (HW H0).
  destruct (Walk _ _ _ _) as [err st]. simpl. intros ->. exact HW.
Qed.

(** X12: no failure to open or decode a file goes unnoticed.  When [Read]
    returns no error, every file it opened was opened and decoded with
    success. *)
Theorem Read_without_error_decoded_every_file_it_opened r fs h t :
  (Read (M:=M) r fs h).1.2 = None →
  t ∈ opened (trace (Read (M:=M) r fs h).2) →
  ∃ docs, openAndDecode fs t = Ok docs.
Proof.
  intros Herr. revert t.
  apply (Read_after
           (λ st, ∀ t, t ∈ opened (trace st) → ∃ docs, openAndDecode fs t = Ok docs)
           (λ _, True)); [| |exact Herr].
  - simpl. by intros t ?%elem_of_nil.
  - intros root p info err st HA.
    destruct (walkFn_reads_or_not (defaulted r) root fs p info err st)
      as [(_ & _ & _ & Hop & _) | (st0 & _ & _ & _ & Hop & _ & ->)].
    + unfold after.
      destruct (walkFn _ _ _ _ _ _ _) as [[[]|] st']; simpl in *; try done;
        intros t; rewrite Hop; apply HA.
    + destruct (annotateAndRead_cases (defaulted r) fs p st0)
        as (_ & Hop' & _ & _ & [(e & _ & He & _) | (docs & Hd & He & _)]);
        unfold after; rewrite He; [done|].
      intros t. rewrite Hop', Hop. intros [Ht | ->%list_elem_of_singleton]%elem_of_app.
      * by apply HA.
      * by exists docs.
Qed.

End ReadMore.

Section ReadGlobal.
Context {K : Kioutil} {F : Filepath} {M : Type} {IM : IgnoreFilesMatcher M}.
Import LocalPackageReader.

Implicit Types (st : wstate (M:=M)) (r : t) (p root : path) (fs : filesystem).

Lemma walkFn_stats r root fs p info err st (S : path → Prop) :
  (PackageFileName r ≠ "" → p ≠ root → S (Join p (PackageFileName r))) →
  (∀ q, EvStat q ∈ trace st → S q) →
  ∀ q, EvStat q ∈ trace (walkFn r root fs p info err st).2 → S q.
Proof.
  intros HS HP q. unfold walkFn.
  destruct err as [e|]; [apply HP|].
  assert (Hskip : ∀ st0, trace st0 = trace st → p ≠ root →
            EvStat q ∈ trace (skipOrRead r fs p (from_option IsDir false info) st0).2 → S q).
  { intros st0 Htr Hp. unfold skipOrRead.
    destruct (from_option IsDir false info).
    - unfold ShouldSkipDir, call_matchDir, call_readIgnoreFile.
      destruct (decide (PackageFileName r = "")) as [Hn|Hn].
      + destruct (matchDir _ _) as [b m]. simpl. rewrite Htr.
        rewrite elem_of_app, list_elem_of_singleton. intros [?|?]; [by apply HP | done].
      + destruct (Stat fs (Join p (PackageFileName r))) as [e|] eqn:Hst.
        * destruct (IsNotExist (Some e)).
          -- destruct (matchDir _ _) as [b m]. simpl. rewrite Htr.
             rewrite !elem_of_app, !list_elem_of_singleton.
             intros [[?|?]|?]; [by apply HP | | done]. simplify_eq. by apply HS.
          -- simpl. rewrite Htr. rewrite elem_of_app, list_elem_of_singleton.
             intros [?|?]; [by apply HP |]. simplify_eq. by apply HS.
        * destruct (IncludeSubpackages r) eqn:Hinc; simpl.
          -- destruct (readIgnoreFile _ _) as [e m]. simpl. rewrite Htr.
             rewrite !elem_of_app, !list_elem_of_singleton.
             intros [[?|?]|?]; [by apply HP | | done]. simplify_eq. by apply HS.
          -- rewrite Htr. rewrite elem_of_app, list_elem_of_singleton.
             intros [?|?]; [by apply HP |]. simplify_eq. by apply HS.
    - unfold ShouldSkipFile, call_matchFile.
      destruct (matchFile _ _) as [b m]. simpl.
      assert (Hq : EvStat q ∈ trace st0 ++ [EvMatchFile p] → S q).
      { rewrite Htr, elem_of_app, list_elem_of_singleton.
        intros [?|?]; [by apply HP | done]. }
      destruct b; simpl; [exact Hq|].
      destruct (matchGlobs _ _) as [[|] [e|]]; simpl; try exact Hq.
      unfold annotateAndRead, readFile, initReaderAnnotations. simpl.
      match goal with |- context [ByteReader_Read ?a ?b ?c] =>
        destruct (ByteReader_Read a b c) as [nodes|e] end;
      destruct (rSetAnnotations _), (OmitReaderAnnotations r); simpl;
      rewrite elem_of_app, list_elem_of_singleton;
      (intros [?|?]; [by apply Hq | done]). }
  destruct (bool_decide (p = root)) eqn:Hp.
  - apply bool_decide_eq_true_1 in Hp. subst p.
    destruct (from_option IsDir false info) eqn:Hd.
    + unfold call_readIgnoreFile. simpl.
      destruct (readIgnoreFile _ _) as [e m]. simpl.
      rewrite elem_of_app, list_elem_of_singleton.
      intros [?|?]; [by apply HP | done].
    + unfold skipOrRead. unfold ShouldSkipFile, call_matchFile.
      destruct (matchFile _ _) as [b m]. simpl.
      assert (Hq : EvStat q ∈ trace st ++ [EvMatchFile root] → S q).
      { rewrite elem_of_app, list_elem_of_singleton.
        intros [?|?]; [by apply HP | done]. }
      destruct b; simpl; [exact Hq|].
      destruct (matchGlobs _ _) as [[|] [e|]]; simpl; try exact Hq.
      unfold annotateAndRead, readFile, initReaderAnnotations. simpl.
      match goal with |- context [ByteReader_Read ?a ?b ?c] =>
        destruct (ByteReader_Read a b c) as [nodes|e] end;
      destruct (rSetAnnotations _), (OmitReaderAnnotations r); simpl;
      rewrite elem_of_app, list_elem_of_singleton;
      (intros [?|?]; [by apply Hq | done]).
  - apply bool_decide_eq_false_1 in Hp. by apply Hskip.
Qed.

(** As [Read_invariant], for walk functions that run with the root that
    [filepath.Abs] returned. *)
Lemma Read_invariant_root (P : wstate (M:=M) → Prop) r fs h :
  P (initial r h) →
  (∀ root p info err st,
     Abs (ToSlash (PackagePath r)) = Ok root →
     P st → P (walkFn (defaulted r) root fs p info err st).2) →
  P (Read r fs h).2.
Proof.
  intros H0 Hfn. unfold Read.
  assert (Hi : initial (defaulted r) h = initial r h).
  { unfold initial. by destruct (defaulted_fields r) as (_ & -> & _). }
  destruct (decide (PackagePath r = "")); [exact H0|].
  destruct (Abs _) as [root|e] eqn:Ha; [|by rewrite Hi].
  pose proof (Walk_invariant P (walkFn (defaulted r) root fs) fs root (initial (defaulted r) h)
                (λ p info err st, Hfn root p info err st eq_refl)) as HW.
  rewrite Hi in *. specialize (HW H0).
  by destruct (Walk _ _ _ _) as [err st].
Qed.

(** X11: the only files that [Read] tests for existence are marker files,
    in directories other than the root; with no marker configured it
    tests none. *)
Theorem Read_stats_marker_files_only r fs h q :
  EvStat q ∈ trace (Read (M:=M) r fs h).2 →
  PackageFileName r ≠ ""
  ∧ ∃ d, q = Join d (PackageFileName r)
         ∧ Abs (ToSlash (PackagePath r)) ≠ Ok d.
Proof.
  revert q.
  apply (Read_invariant_root (λ st, ∀ q, EvStat q ∈ trace st →
           PackageFileName r ≠ ""
           ∧ ∃ d, q = Join d (PackageFileName r) ∧ Abs (ToSlash (PackagePath r)) ≠ Ok d)).
  - simpl. by intros q ?%elem_of_nil.
  - intros root p info err st Ha HP.
    destruct (defaulted_fields r) as (_ & _ & Hname & _).
    apply walkFn_stats; [|exact HP].
    rewrite Hname. intros Hn Hp. split; [done|]. exists p. split; [done|].
    rewrite Ha. by intros [= ->].
Qed.

(** X13: [Read] writes to no map of the caller but the one it was
    given, and not to that one when annotations are suppressed.  A map
    that exists before the call and that is not the receiver's
    [SetAnnotations], or that is while [OmitReaderAnnotations] is set, is
    the same after the call. *)
Theorem Read_leaves_the_other_maps_alone r fs h (l : loc) :
  is_Some (h !! l) →
  SetAnnotations r ≠ Some l ∨ OmitReaderAnnotations r = true →
  maps (Read (M:=M) r fs h).2 !! l = h !! l.
Proof.
  intros Hl Hnot.
  apply (Read_invariant (λ st,
    maps st !! l = h !! l
    ∧ (rSetAnnotations st = SetAnnotations r ∨ ∃ l', rSetAnnotations st = Some l' ∧ l' ≠ l))).
  - simpl. split; [done|by left].
  - intros root p info err st [Hm Hr].
    destruct (walkFn_reads_or_not (defaulted r) root fs p info err st)
      as [(-> & -> & _) | (st0 & Hm0 & Hr0 & _ & _ & _ & ->)]; [done|].
    destruct (annotateAndRead_cases (defaulted r) fs p st0) as (_ & _ & -> & -> & _).
    destruct (defaulted_fields r) as (Homit & _).
    unfold initReaderAnnotations. rewrite Hm0, Hr0, Homit.
    destruct (rSetAnnotations st) as [l1|] eqn:Hl1.
    + assert (Hcase : OmitReaderAnnotations r = true ∨ l1 ≠ l).
      { destruct Hr as [Hr | (l' & [= ->] & Hne)]; [|by right].
        destruct Hnot as [Hnot|Hnot]; [|by left]. right. intros ->. by rewrite Hr in Hnot. }
      destruct (OmitReaderAnnotations r); simpl.
      * split; [done|]. destruct Hr as [Hr|Hr]; [by left|by right].
      * destruct Hcase as [?|Hne]; [done|].
        rewrite lookup_insert_ne by done. split; [done|].
        destruct Hr as [Hr|Hr]; [by left|by right].
    + assert (Hfresh : fresh (dom (maps st)) ≠ l).
      { intros Heq. apply (is_fresh (dom (maps st))). rewrite Heq.
        apply elem_of_dom. by rewrite Hm. }
      destruct (OmitReaderAnnotations r); simpl.
      * rewrite lookup_insert_ne by done. split; [done|]. right. by eexists.
      * rewrite !lookup_insert_ne by done. split; [done|]. right. by eexists.
Qed.

Lemma Rel_below root (suffix : list string) : Rel root (root ++ suffix) = suffix.
Proof.
  induction root as [|a root IH]; [by destruct suffix|].
  cbn [Rel app]. by rewrite decide_True.
Qed.

Lemma below_ne root p : below root p → p ≠ root.
Proof.
  intros (suffix & Hs & ->) H. apply (f_equal length) in H.
  rewrite length_app in H. destruct suffix; [done|]. simpl in H. lia.
Qed.

Lemma below_Join root p name : below root p → below root (Join p name).
Proof.
  intros (suffix & Hs & ->). exists (suffix ++ [name]). split.
  - by destruct suffix.
  - unfold Join. by rewrite app_assoc.
Qed.

(** X14: when the package path names a directory, the path annotation of
    every document that [Read] returns is the path, relative to that
    directory, of a file below it, and that annotation joined to the
    package path is a file that [Read] opened. *)
Theorem documents_carry_the_path_relative_to_the_root_directory
    r fs h root rd es n :
  Abs (ToSlash (PackagePath r)) = Ok root →
  Lstat fs root = Ok (Dir rd es) →
  OmitReaderAnnotations r = false →
  PathAnnotation ≠ IndexAnnotation →
  n ∈ (Read (M:=M) r fs h).1.1 →
  ∃ suffix,
    suffix ≠ []
    ∧ annotations n !! PathAnnotation = Some (show_rel suffix)
    ∧ JoinRel root suffix ∈ opened (trace (Read (M:=M) r fs h).2).
Proof.
  intros Habs Hstat Homit Hne. rewrite Read_operand. revert n.
  set (A := λ st : wstate (M:=M),
    pathRelativeTo st = root
    ∧ ∀ n, n ∈ operand st →
        ∃ suffix, suffix ≠ []
          ∧ annotations n !! PathAnnotation = Some (show_rel suffix)
          ∧ JoinRel root suffix ∈ opened (trace st)).
  set (P := λ st : wstate (M:=M), operand st = [] ∨ A st).
  enough (HA : P (Read (M:=M) r fs h).2).
  { destruct HA as [-> | [_ HA]]; [by intros n ?%elem_of_nil | exact HA]. }
  assert (Hfn : ∀ q info err st, below root q → A st →
            after A A (walkFn (defaulted r) root fs q info err st)).
  { intros q info err st Hq [Hrel HA].
    assert (Hres : A (walkFn (defaulted r) root fs q info err st).2);
      [|unfold after; by destruct (walkFn _ _ _ _ _ _ _) as [[[]|] st']].
    pose proof (below_ne root q Hq) as Hqr.
    destruct (walkFn_reads_or_not (defaulted r) root fs q info err st)
      as [(_ & _ & Ho & Hop & Hp) | (st0 & _ & _ & Ho & Hop & Hp & ->)].
    - split; [by rewrite Hp|]. intros n. rewrite Ho, Hop. apply HA.
    - destruct (annotateAndRead_cases (defaulted r) fs q st0)
        as (Hp' & Hop' & _ & _ & Hcases).
      specialize (Hp Hqr). rewrite Hp, Hrel in Hp', Hop', Hcases.
      destruct Hq as (suffix & Hs & ->). rewrite Rel_below in Hop', Hcases.
      split; [by rewrite Hp'|].
      assert (Hold : ∀ n, n ∈ operand st0 →
        ∃ suffix0, suffix0 ≠ []
          ∧ annotations n !! PathAnnotation = Some (show_rel suffix0)
          ∧ JoinRel root suffix0
              ∈ opened (trace (annotateAndRead (defaulted r) fs (root ++ suffix) st0).2)).
      { intros n Hn. rewrite Ho in Hn. destruct (HA n Hn) as (s0 & ? & ? & Hin).
        exists s0. split_and!; [done..|]. rewrite Hop', Hop. apply elem_of_app. by left. }
      destruct Hcases as [(e & _ & _ & ->) | (docs & _ & _ & ->)]; [exact Hold|].
      intros n [Hn|Hn]%elem_of_app; [by apply Hold|].
      apply elem_of_lookup_imap in Hn as (i & n0 & -> & _).
      exists suffix. split_and!; [done| |].
      + destruct (defaulted_fields r) as (-> & _). rewrite Homit.
        apply stamp_value; [done|]. by rewrite lookup_insert_eq.
      + rewrite Hop'. apply elem_of_app. right. by apply list_elem_of_singleton. }
  unfold Read. destruct (decide (PackagePath r = "")) as [?|_]; [by left|].
  rewrite Habs. unfold Walk. rewrite Hstat.
  pose proof (walk_Dir (walkFn (defaulted r) root fs) root rd es
                (initial (defaulted r) h)) as ->.
  unfold walkFn at 1.
  destruct rd as [e|]; [by left|].
  simpl from_option. rewrite bool_decide_eq_true_2 by done.
  unfold call_readIgnoreFile. simpl ignoreFilesMatcher.
  destruct (readIgnoreFile newMatcher root) as [[e|] m]; [by left|].
  set (st1 := emit (EvReadIgnore root)
                (set_matcher m (set_pathRelativeTo root (initial (defaulted r) h)))).
  assert (HA1 : A st1) by (split; [done|by intros n ?%elem_of_nil]).
  assert (Hall : Forall (λ x, ∀ q st, below root q → A st →
                   after A A (walk (walkFn (defaulted r) root fs) q x.2 st)) es).
  { apply Forall_forall. intros x _ q st. apply (walk_after (below root) A A); [|exact Hfn].
    apply below_Join. }
  assert (Hgoal : A (walkChildren (walkFn (defaulted r) root fs) root es st1).2).
  { (* the entries of the root are below it *)
    revert HA1. generalize st1. clear st1 Hstat.
    induction Hall as [|[name child] es' Hc _ IH]; intros st1 HA1; [exact HA1|].
    simpl in Hc. cbn [walkChildren].
    assert (Hq : below root (Join root name)) by (exists [name]; by split).
    destruct child as [d|rd' es''|e].
    - pose proof (Hc (Join root name) st1 Hq HA1) as H%after_same.
      destruct (walk _ _ (File d) st1) as [[e'|] st']; simpl; [exact H | by apply IH].
    - pose proof (Hc (Join root name) st1 Hq HA1) as H%after_same.
      destruct (walk _ _ (Dir rd' es'') st1) as [[e'|] st']; [|by apply IH].
      simpl. destruct (bool_decide (e' = SkipDir)); simpl; [by apply IH | exact H].
    - pose proof (Hfn (Join root name) None (Some e) st1 Hq HA1) as H%after_same.
      destruct (walkFn _ _ _ _ None (Some e) st1) as [[e'|] st']; [|by apply IH].
      destruct (bool_decide (e' = SkipDir)); [by apply IH | exact H]. }
  destruct (walkChildren _ _ _ _) as [err st']. right. exact Hgoal.
Qed.

End ReadGlobal.

(** * The further properties on the example packages *)

Section OnMoreExamples.
Import Platform Examples MoreExamples.

(** X2 on [flat]: the coordinator that does not track files is left as
    it is by [Read], and a later [Write] of no document removes
    nothing. *)
Lemma NoDeleteFiles_witness :
  ((∀ fs h, (LocalPackageReadWriter.Read (IM:=noIgnore) untracked fs h).1.2 = untracked)
   ∧ (LocalPackageReadWriter.files untracked = None →
      ∀ ops h, LocalPackageReadWriter.allAttempted
                 (LocalPackageReadWriter.run (IM:=noIgnore) ops (untracked, h)).1 = [])
   ∧ (∀ h env nodes,
        LocalPackageReadWriter.Write untracked h env nodes
        = LocalPackageReadWriter.Write
            (LocalPackageReadWriter.with_NoDeleteFiles false untracked) h env nodes))
  ∧ (LocalPackageReadWriter.run (IM:=noIgnore)
       [LocalPackageReadWriter.OpRead flat; LocalPackageReadWriter.OpWrite allOk []]
       (untracked, ∅)).1 !! 1
    = Some (LocalPackageReadWriter.DidWrite None [WriterCalled "/pkg" [] false []]).
Proof.
  split; [|vm_compute; reflexivity].
  apply (NoDeleteFiles_stops_recording_not_deleting (IM:=noIgnore) untracked).
  reflexivity.
Defined.

(** X3 on [flat]: writing back the three documents read removes
    nothing. *)
Lemma write_back_witness :
  attempted (LocalPackageReadWriter.Write
               (LocalPackageReadWriter.Read (IM:=noIgnore) coordinator flat ∅).1.2
               ∅ allOk readNodes).2 = []
  ∧ (LocalPackageReadWriter.Write
       (LocalPackageReadWriter.Read (IM:=noIgnore) coordinator flat ∅).1.2
       ∅ allOk readNodes).1
    = Wrap (LocalPackageWriter_Write allOk (LocalPackageReadWriter.PackagePath coordinator)
              (rangeOrder (dom (deref ∅ (LocalPackageReadWriter.SetAnnotations coordinator))))
              (LocalPackageReadWriter.KeepReaderAnnotations coordinator) readNodes).
Proof.
  apply (write_back_removes_nothing (IM:=noIgnore) coordinator flat ∅ readNodes ∅ allOk
           readNodes {[ "a.yaml"; "c.yml" ]}).
  - reflexivity.
  - vm_compute. reflexivity.
  - vm_compute. reflexivity.
  - intros f. assert (H : LocalPackageReadWriter.pathsOf readNodes = ["a.yaml"; "a.yaml"; "c.yml"])
      by (vm_compute; reflexivity).
    rewrite H. set_solver.
Defined.

(** X4 on [flat]: without the two documents of [a.yaml], [Write] removes
    [a.yaml] and nothing else. *)
Lemma dropping_a_file_witness :
  attempted (LocalPackageReadWriter.Write
               (LocalPackageReadWriter.Read (IM:=noIgnore) coordinator flat ∅).1.2 ∅ allOk
               (filter (λ n, LocalPackageReadWriter.pathIs "a.yaml" n = false) readNodes)).2
    = ["a.yaml"]
  ∧ (LocalPackageReadWriter.Write
       (LocalPackageReadWriter.Read (IM:=noIgnore) coordinator flat ∅).1.2 ∅ allOk
       (filter (λ n, LocalPackageReadWriter.pathIs "a.yaml" n = false) readNodes)).1
    = Wrap (os_Remove allOk (JoinStr (LocalPackageReadWriter.PackagePath coordinator) "a.yaml"))
  ∧ deleted (LocalPackageReadWriter.Write
               (LocalPackageReadWriter.Read (IM:=noIgnore) coordinator flat ∅).1.2 ∅ allOk
               (filter (λ n, LocalPackageReadWriter.pathIs "a.yaml" n = false) readNodes)).2
    = match os_Remove allOk (JoinStr (LocalPackageReadWriter.PackagePath coordinator) "a.yaml") with
      | None => ["a.yaml"]
      | Some _ => []
      end.
Proof.
  apply (dropping_a_file_removes_that_file_only (IM:=noIgnore) coordinator flat ∅ readNodes
           "a.yaml" ∅ allOk).
  - reflexivity.
  - vm_compute. reflexivity.
  - assert (H : LocalPackageReadWriter.pathsOf readNodes = ["a.yaml"; "a.yaml"; "c.yml"])
      by (vm_compute; reflexivity).
    rewrite H. apply list_elem_of_here.
  - reflexivity.
Defined.

(** X7 on [flat]: with a matcher that cannot load the ignore file of the
    root, nothing is read and the error comes back as it is. *)
Lemma root_ignore_file_error_witness :
  (LocalPackageReader.Read (IM:=brokenIgnore) plain flat ∅).1
    = ([], if bool_decide (ErrOS "cannot read .krmignore" = SkipDir) then None
           else Some (ErrOS "cannot read .krmignore"))
  ∧ LocalPackageReader.trace (LocalPackageReader.Read (IM:=brokenIgnore) plain flat ∅).2
    = [EvReadIgnore ["pkg"]]
  ∧ LocalPackageReader.maps (LocalPackageReader.Read (IM:=brokenIgnore) plain flat ∅).2 = ∅.
Proof.
  apply (root_ignore_file_error_ends_the_read (IM:=brokenIgnore) plain flat ∅ ["pkg"]
           [("a.yaml", File (Ok [doc "a0"; doc "a1"]));
            ("b.json", File (Ok [doc "b0"]));
            ("c.yml", File (Ok [doc "c0"]))] (ErrOS "cannot read .krmignore")).
  - done.
  - reflexivity.
  - reflexivity.
  - reflexivity.
Defined.

(** X8 on [nested]: with [lib] excluded, its walk ends with [SkipDir] and
    [x.yaml] is not visited. *)
Lemma excluded_directory_witness :
  LocalPackageReader.walk
    (LocalPackageReader.walkFn (IM:=excluding [] [["pkg"; "lib"]]) marked ["pkg"] nested)
    ["pkg"; "lib"] (Dir None [("x.yaml", File (Ok [doc "x0"]))]) inRoot
  = (Some SkipDir,
     LocalPackageReader.asked (EvMatchDir ["pkg"; "lib"])
       (matchDir (IgnoreFilesMatcher:=excluding [] [["pkg"; "lib"]])
          (LocalPackageReader.ignoreFilesMatcher inRoot) ["pkg"; "lib"]).2
       (LocalPackageReader.emit (EvStat ["pkg"; "lib"; "Kptfile"]) inRoot)).
Proof.
  apply (proj1 (excluded_directory_is_skipped (IM:=excluding [] [["pkg"; "lib"]])
                  marked ["pkg"] nested ["pkg"; "lib"]
                  [("x.yaml", File (Ok [doc "x0"]))] inRoot
                  ltac:(done) ltac:(right; vm_compute; reflexivity) ltac:(reflexivity))).
Defined.

(** X9 on [nested]: with sub-packages included, [sub] is entered although
    the matcher excludes it. *)
Lemma included_subpackage_witness :
  LocalPackageReader.walk
    (LocalPackageReader.walkFn (IM:=excluding [] [["pkg"; "sub"]]) including ["pkg"] nested)
    ["pkg"; "sub"]
    (Dir None [("Kptfile", File (Ok [doc "k"])); ("y.yaml", File (Ok [doc "y0"]))]) inRoot
  = LocalPackageReader.walkChildren
      (LocalPackageReader.walkFn (IM:=excluding [] [["pkg"; "sub"]]) including ["pkg"] nested)
      ["pkg"; "sub"]
      [("Kptfile", File (Ok [doc "k"])); ("y.yaml", File (Ok [doc "y0"]))]
      (LocalPackageReader.asked (EvReadIgnore ["pkg"; "sub"])
         (readIgnoreFile (IgnoreFilesMatcher:=excluding [] [["pkg"; "sub"]])
            (LocalPackageReader.ignoreFilesMatcher inRoot) ["pkg"; "sub"]).2
         (LocalPackageReader.emit (EvStat ["pkg"; "sub"; "Kptfile"]) inRoot)).
Proof.
  apply (included_subpackage_is_entered_without_asking_the_matcher
           (IM:=excluding [] [["pkg"; "sub"]]) including ["pkg"] nested ["pkg"; "sub"]
           [("Kptfile", File (Ok [doc "k"])); ("y.yaml", File (Ok [doc "y0"]))] inRoot
           ltac:(done) ltac:(done) ltac:(reflexivity) ltac:(reflexivity)).
Defined.

(** X10 on [guarded]: the marker of [sub] cannot be examined, the walk of
    [sub] ends with the error, and [z.yaml], which follows [sub], is not
    visited. *)
Lemma marker_Stat_error_witness :
  LocalPackageReader.walkChildren
    (LocalPackageReader.walkFn (IM:=noIgnore) marked ["pkg"] guarded) ["pkg"]
    [("sub", Dir None [("Kptfile", Bad (ErrOS "permission denied"));
                       ("y.yaml", File (Ok [doc "y0"]))]);
     ("z.yaml", File (Ok [doc "z0"]))] inRoot
  = (Some (Wrapped (ErrOS "permission denied")),
     LocalPackageReader.emit (EvStat ["pkg"; "sub"; "Kptfile"]) inRoot).
Proof.
  apply (proj2 (marker_Stat_error_ends_the_walk (IM:=noIgnore) marked ["pkg"] guarded
                  ["pkg"; "sub"]
                  [("Kptfile", Bad (ErrOS "permission denied"));
                   ("y.yaml", File (Ok [doc "y0"]))] inRoot (ErrOS "permission denied")
                  ltac:(done) ltac:(done) ltac:(reflexivity) ltac:(reflexivity))
           ["pkg"] "sub" [("z.yaml", File (Ok [doc "z0"]))] eq_refl).
Defined.

(** X11 on [nested]: the [Stat] of [lib/Kptfile] is one of a marker file
    in a directory that is not the root. *)
Lemma Read_stats_witness :
  LocalPackageReader.PackageFileName marked ≠ ""
  ∧ ∃ d, ["pkg"; "lib"; "Kptfile"] = Join d (LocalPackageReader.PackageFileName marked)
         ∧ Abs (ToSlash (LocalPackageReader.PackagePath marked)) ≠ Ok d.
Proof.
  apply (Read_stats_marker_files_only (IM:=noIgnore) marked nested ∅ ["pkg"; "lib"; "Kptfile"]).
  apply (bool_decide_unpack _). vm_compute. exact I.
Defined.

(** X12 on [flat]: the [Read] returns no error, and [a.yaml], which it
    opened, decodes. *)
Lemma Read_without_error_witness :
  ∃ docs, openAndDecode flat ["pkg"; "a.yaml"] = Ok docs.
Proof.
  apply (Read_without_error_decoded_every_file_it_opened (IM:=noIgnore)
           plain flat ∅ ["pkg"; "a.yaml"]).
  - vm_compute. reflexivity.
  - apply (bool_decide_unpack _). vm_compute. exact I.
Defined.

(** X13 on [flat]: the reader that shares the map at location 1 leaves
    the map at location 2 as it was. *)
Lemma other_maps_witness :
  LocalPackageReader.maps
    (LocalPackageReader.Read (IM:=noIgnore) sharing flat twoMaps).2 !! 2%positive
  = twoMaps !! 2%positive.
Proof.
  apply (Read_leaves_the_other_maps_alone (IM:=noIgnore) sharing flat twoMaps 2%positive).
  - vm_compute. by eexists.
  - left. done.
Defined.

(** X14 on [nested] with sub-packages included: the documents carry
    [a.yaml], [lib/x.yaml] and [sub/y.yaml]. *)
Lemma relative_paths_witness :
  (∀ n, n ∈ (LocalPackageReader.Read (IM:=noIgnore) including nested ∅).1.1 →
     ∃ suffix,
       suffix ≠ []
       ∧ annotations n !! PathAnnotation = Some (show_rel suffix)
       ∧ JoinRel ["pkg"] suffix
           ∈ opened (LocalPackageReader.trace
                       (LocalPackageReader.Read (IM:=noIgnore) including nested ∅).2))
  ∧ (λ n, annotations n !! PathAnnotation)
      <$> (LocalPackageReader.Read (IM:=noIgnore) including nested ∅).1.1
    = [Some "a.yaml"; Some "lib/x.yaml"; Some "sub/y.yaml"].
Proof.
  split; [|vm_compute; reflexivity].
  intros n. 
  apply (documents_carry_the_path_relative_to_the_root_directory
           (K:=kioutil) (F:=filepath) (IM:=noIgnore)
           including nested ∅ ["pkg"] None
           [("Kptfile", File (Ok [doc "k"]));
            ("a.yaml", File (Ok [doc "a0"]));
            ("lib", Dir None [("x.yaml", File (Ok [doc "x0"]))]);
            ("sub", Dir None [("Kptfile", File (Ok [doc "k"]));
                              ("y.yaml", File (Ok [doc "y0"]))])] n
           ltac:(reflexivity) ltac:(reflexivity) ltac:(reflexivity) ltac:(done)).
Defined.

(** X16 on [flat]: the coordinator with a [nil] [SetAnnotations] reads and
    writes, and the writer is given nothing to clear. *)
Lemma nil_SetAnnotations_witness :
  LocalPackageReadWriter.allCleared
    (LocalPackageReadWriter.run (IM:=noIgnore)
       [LocalPackageReadWriter.OpRead flat; LocalPackageReadWriter.OpWrite allOk []]
       (coordinator, ∅)).1 = [[]]
  ∧ ∀ c, c ∈ LocalPackageReadWriter.allCleared
               (LocalPackageReadWriter.run (IM:=noIgnore)
                  [LocalPackageReadWriter.OpRead flat; LocalPackageReadWriter.OpWrite allOk []]
                  (coordinator, ∅)).1 →
         c = [].
Proof.
  split; [vm_compute; reflexivity|].
  intros c.
  apply (nil_SetAnnotations_clears_nothing (IM:=noIgnore) coordinator
           [LocalPackageReadWriter.OpRead flat; LocalPackageReadWriter.OpWrite allOk []]
           ∅ c eq_refl).
Defined.


End OnMoreExamples.
